(** * swarm/util.py: delta merging and tool-schema construction

    A shallow embedding of [merge_fields], [merge_chunk] and
    [function_to_json] (with its inner [parse_type]) of [swarm/util.py].

    Python values are modelled as a JSON-shaped tree of [None], booleans,
    numbers, strings (held as their UTF-8 bytes), plain lists and plain
    dicts.  A [dict] is an
    association list in insertion order with string keys, because
    [merge_fields] walks [source.items()] in that order and stops at the
    first field that raises: which fields were applied before the raise
    depends on the order.  A Python dict holds each key once; statements
    that need it say [NoDup (dict_keys d)].

    The functions mutate their arguments in place; here every function
    returns the state its arguments are left in, also when it raises.
    Accumulator and delta are taken to be trees that share no object with
    one another.  Exceptions are the ones the interpreter raises for the
    operations written in the source: [KeyError] for a missing key,
    [IndexError] for a list index out of range, [TypeError] for an
    operation the object does not support or an unhashable key,
    [AttributeError] for a missing method. *)

From Stdlib Require Import ZArith Ascii String SpecFloat.
From stdpp Require Import base list strings.

Local Open Scope Z_scope.
Local Open Scope string_scope.

(** ** Python values *)

Unset Elimination Schemes.
Inductive value : Type :=
  | VNone
  | VBool (b : bool)
  | VInt (n : Z)
  | VFloat (x : spec_float)
  | VStr (s : string)
  | VList (items : list value)
  | VDict (fields : list (string * value)).
Set Elimination Schemes.

Abbreviation dict := (list (string * value)) (only parsing).

(** Induction over the tree, with the hypothesis available for every
    element of a list and for every field value of a dict. *)
Section value_induction.
Variable P : value -> Prop.
Hypothesis HNone : P VNone.
Hypothesis HBool : forall b, P (VBool b).
Hypothesis HInt : forall n, P (VInt n).
Hypothesis HFloat : forall x, P (VFloat x).
Hypothesis HStr : forall s, P (VStr s).
Hypothesis HList : forall l, Forall P l -> P (VList l).
Hypothesis HDict : forall d : dict, Forall (fun kv => P (snd kv)) d -> P (VDict d).

Fixpoint value_ind (v : value) : P v :=
  match v with
  | VNone => HNone
  | VBool b => HBool b
  | VInt n => HInt n
  | VFloat x => HFloat x
  | VStr s => HStr s
  | VList l =>
      HList l ((fix all (l : list value) : Forall P l :=
                  match l return Forall P l with
                  | [] => @List.Forall_nil _ P
                  | x :: l' => @List.Forall_cons _ P x l' (value_ind x) (all l')
                  end) l)
  | VDict d =>
      HDict d ((fix all (d : dict) : Forall (fun kv => P (snd kv)) d :=
                  match d return Forall (fun kv => P (snd kv)) d with
                  | [] => @List.Forall_nil _ _
                  | kv :: d' =>
                      @List.Forall_cons _ (fun kv => P (snd kv)) kv d'
                        (value_ind (snd kv)) (all d')
                  end) d)
  end.
End value_induction.

(** Exceptions the modelled code can raise. *)
Inductive exn : Type :=
  | KeyError
  | TypeError
  | IndexError
  | AttributeError
  | ValueError.

(** Result of an expression: a value or a raised exception. *)
Inductive result (A : Type) : Type :=
  | Ok (a : A)
  | Raise (e : exn).
Arguments Ok {A} a.
Arguments Raise {A} e.

(** How a statement ends. *)
Inductive outcome : Type :=
  | Done
  | Raised (e : exn).

(** ** Dictionaries *)

(** [d.get(k)], [None] when the key is absent. *)
Fixpoint dict_get (k : string) (d : dict) : option value :=
  match d with
  | [] => None
  | (k', v) :: d' => if String.eqb k k' then Some v else dict_get k d'
  end.

(** [d[k] = v]: an existing key keeps its place, a new key goes last. *)
Fixpoint dict_set (k : string) (v : value) (d : dict) : dict :=
  match d with
  | [] => [(k, v)]
  | (k', v') :: d' =>
      if String.eqb k k' then (k', v) :: d' else (k', v') :: dict_set k v d'
  end.

(** [del d[k]] when the key is present, nothing otherwise. *)
Fixpoint dict_del (k : string) (d : dict) : dict :=
  match d with
  | [] => []
  | (k', v) :: d' => if String.eqb k k' then d' else (k', v) :: dict_del k d'
  end.

Definition dict_keys (d : dict) : list string := map fst d.

(** ** Python primitives used by the code *)

(** Truth value of an object, as tested by [if x]. *)
Definition truthy (v : value) : bool :=
  match v with
  | VNone => false
  | VBool b => b
  | VInt n => negb (Z.eqb n 0)
  | VFloat (S754_zero _) => false
  | VFloat _ => true
  | VStr s => negb (String.eqb s "")
  | VList l => match l with [] => false | _ => true end
  | VDict d => match d with [] => false | _ => true end
  end.

(** A [str] is held as the bytes of its UTF-8 encoding.  A byte of the
    form [10xxxxxx] continues the character begun before it. *)
Definition is_continuation (c : ascii) : bool :=
  match c with
  | Ascii _ _ _ _ _ _ b6 b7 => b7 && negb b6
  end.

Definition starts_with_continuation (s : string) : bool :=
  match s with
  | String c _ => is_continuation c
  | EmptyString => false
  end.

(** The characters (code points) of a string as one-character strings:
    what iterating over a [str] yields.  Each character is a byte together
    with the continuation bytes that follow it. *)
Fixpoint chars (s : string) : list value :=
  match s with
  | EmptyString => []
  | String c s' =>
      if starts_with_continuation s' then
        match chars s' with
        | VStr rest :: others => VStr (String c rest) :: others
        | others => VStr (String c EmptyString) :: others
        end
      else VStr (String c EmptyString) :: chars s'
  end.

(** [len(x)]; for a [str] the number of its characters. *)
Definition py_len (v : value) : result Z :=
  match v with
  | VStr s => Ok (Z.of_nat (length (chars s)))
  | VList l => Ok (Z.of_nat (length l))
  | VDict d => Ok (Z.of_nat (length d))
  | _ => Raise TypeError
  end.

(** An object used as a sequence index: [int], and [bool] as its subclass. *)
Definition as_index (v : value) : option Z :=
  match v with
  | VInt n => Some n
  | VBool b => Some (if b then 1 else 0)
  | _ => None
  end.

(** Position addressed by index [i] in a sequence of length [len]:
    a negative index counts from the end, out of range is [None]. *)
Definition seq_position (len : nat) (i : Z) : option nat :=
  let j := if Z.ltb i 0 then i + Z.of_nat len else i in
  if Z.leb 0 j && Z.ltb j (Z.of_nat len) then Some (Z.to_nat j) else None.

(** [container[key]]. *)
Definition py_getitem (container key : value) : result value :=
  match container with
  | VDict d =>
      match key with
      | VStr k => match dict_get k d with Some v => Ok v | None => Raise KeyError end
      | VList _ | VDict _ => Raise TypeError
      | _ => Raise KeyError
      end
  | VList l =>
      match as_index key with
      | Some i =>
          match seq_position (length l) i with
          | Some n => match l !! n with Some v => Ok v | None => Raise IndexError end
          | None => Raise IndexError
          end
      | None => Raise TypeError
      end
  | VStr s =>
      match as_index key with
      | Some i =>
          match seq_position (length (chars s)) i with
          | Some n => match chars s !! n with Some v => Ok v | None => Raise IndexError end
          | None => Raise IndexError
          end
      | None => Raise TypeError
      end
  | _ => Raise TypeError
  end.

(** [x += s] for a [str] on the right: the new binding of [x].
    A [str] is concatenated, a [list] is extended in place by the
    characters, anything else has no such operation. *)
Definition iadd_str (cur : value) (s : string) : result value :=
  match cur with
  | VStr old => Ok (VStr (old +:+ s))
  | VList l => Ok (VList (l ++ chars s))
  | _ => Raise TypeError
  end.

(** ** merge_fields *)

(** One pass of the loop body of [merge_fields] for the field
    [(key, val)]; [recurse] is the recursive call on a [dict] value. *)
Definition merge_field
    (recurse : value -> value * outcome)
    (target : value) (key : string) (val : value) : value * outcome :=
  match val with
  | VStr s =>
      (* target[key] += value *)
      match target with
      | VDict d =>
          match dict_get key d with
          | None => (target, Raised KeyError)
          | Some cur =>
              match iadd_str cur s with
              | Ok new => (VDict (dict_set key new d), Done)
              | Raise e => (target, Raised e)
              end
          end
      | _ => (target, Raised TypeError)
      end
  | VDict _ =>
      (* merge_fields(target[key], value) *)
      match target with
      | VDict d =>
          match dict_get key d with
          | None => (target, Raised KeyError)
          | Some cur =>
              let '(cur', r) := recurse cur in
              (VDict (dict_set key cur' d), r)
          end
      | _ => (target, Raised TypeError)
      end
  | _ => (target, Done)
  end.

(** [merge_source v target] is [merge_fields(target, v)] for a [dict] [v];
    the recursion is on the delta. *)
Fixpoint merge_source (source : value) (target : value) {struct source}
    : value * outcome :=
  match source with
  | VDict fields =>
      (fix loop (fields : dict) (target : value) {struct fields} : value * outcome :=
         match fields with
         | [] => (target, Done)
         | (key, val) :: rest =>
             match merge_field (merge_source val) target key val with
             | (target', Done) => loop rest target'
             | (target', Raised e) => (target', Raised e)
             end
         end) fields target
  | _ => (target, Done)
  end.

Definition merge_fields (target : value) (source : dict) : value * outcome :=
  merge_source (VDict source) target.

(** ** merge_chunk *)

(** The container after the object reached as [container[key]] was mutated
    in place into [new].  A [str] has no mutable elements. *)
Definition put_item (container key new : value) : value :=
  match container with
  | VDict d =>
      match key with
      | VStr k => VDict (dict_set k new d)
      | _ => container
      end
  | VList l =>
      match as_index key with
      | Some i =>
          match seq_position (length l) i with
          | Some n => VList (<[n := new]> l)
          | None => container
          end
      | None => container
      end
  | _ => container
  end.

(** [entry.pop("index")]: the popped value and the fields left in the
    entry.  Only a [dict] has such a method; [list.pop] wants an integer. *)
Definition pop_index (entry : value) : result (value * dict) :=
  match entry with
  | VDict fields =>
      match dict_get "index" fields with
      | Some index => Ok (index, dict_del "index" fields)
      | None => Raise KeyError
      end
  | VList _ => Raise TypeError
  | _ => Raise AttributeError
  end.

(** The statement under the [if] of [merge_chunk]; [delta] has lost its
    role and [tool_calls] is [delta.get("tool_calls")]. *)
Definition route_tool_call (final_response : value) (delta : dict)
    (tool_calls : value) : value * dict * outcome :=
  match py_getitem tool_calls (VInt 0) with
  | Raise e => (final_response, delta, Raised e)
  | Ok entry =>
      match pop_index entry with
      | Raise e => (final_response, delta, Raised e)
      | Ok (index, fields) =>
          let delta' :=
            dict_set "tool_calls" (put_item tool_calls (VInt 0) (VDict fields)) delta in
          match py_getitem final_response (VStr "tool_calls") with
          | Raise e => (final_response, delta', Raised e)
          | Ok slots =>
              match py_getitem slots index with
              | Raise e => (final_response, delta', Raised e)
              | Ok slot =>
                  let '(slot', r) := merge_fields slot fields in
                  (put_item final_response (VStr "tool_calls")
                     (put_item slots index slot'),
                   delta', r)
              end
          end
      end
  end.

(** [merge_chunk(final_response, delta)]: the accumulator and the delta as
    the call leaves them, and how the call ended. *)
Definition merge_chunk (final_response delta : dict) : value * dict * outcome :=
  let delta := dict_del "role" delta in
  match merge_fields (VDict final_response) delta with
  | (final_response, Raised e) => (final_response, delta, Raised e)
  | (final_response, Done) =>
      match dict_get "tool_calls" delta with
      | None => (final_response, delta, Done)
      | Some tool_calls =>
          if truthy tool_calls then
            match py_len tool_calls with
            | Raise e => (final_response, delta, Raised e)
            | Ok n =>
                if Z.ltb 0 n
                then route_tool_call final_response delta tool_calls
                else (final_response, delta, Done)
            end
          else (final_response, delta, Done)
      end
  end.

(** ** function_to_json *)

(** An annotation object, by what [get_origin] and [get_args] return for it.
    The first seven are the classes that are the keys of [type_map].
    [Union args] has origin [Union] ([Optional[T]] is [Union [T; TNoneType]]);
    [ListOf args] has origin [list] ([List], [List[T]], [list[T]]);
    [DictOf args] has origin [dict].  [Other] is any other object: a class
    outside the table, [Any], [None], a string, [Tuple[...]],
    [Annotated[...]], a union written [X | Y]; such an object may be
    unhashable (a list or dict used as an annotation, [Annotated[int, []]]),
    which [dict.get] rejects. *)
Unset Elimination Schemes.
Inductive annotation : Type :=
  | Tstr
  | Tint
  | Tfloat
  | Tbool
  | Tlist
  | Tdict
  | TNoneType
  | Other (name : string) (can_hash : bool)
  | Union (args : list annotation)
  | ListOf (args : list annotation)
  | DictOf (args : list annotation).
Set Elimination Schemes.

(** The table [type_map], as [type_map.get(annotation)] on an object that
    can be hashed. *)
Definition type_map (a : annotation) : option string :=
  match a with
  | Tstr => Some "string"
  | Tint => Some "integer"
  | Tfloat => Some "number"
  | Tbool => Some "boolean"
  | Tlist => Some "array"
  | Tdict => Some "object"
  | TNoneType => Some "null"
  | _ => None
  end.

(** [arg is type(None)]. *)
Definition is_NoneType (a : annotation) : bool :=
  match a with
  | TNoneType => true
  | _ => false
  end.

(** [hash(annotation)] succeeds. *)
Definition hashable_annotation (a : annotation) : bool :=
  match a with
  | Other _ h => h
  | _ => true
  end.

(** [parsed.get("type", "string")] for a [dict], ["string"] for anything
    else: the name a parsed fragment contributes. *)
Definition type_of_parsed (parsed : value) : value :=
  match parsed with
  | VDict d =>
      match dict_get "type" d with
      | Some t => t
      | None => VStr "string"
      end
  | _ => VStr "string"
  end.

(** [parsed.get("type") == "array" and "items" in parsed], then
    [parsed["items"]]. *)
Definition array_items (parsed : value) : option value :=
  match parsed with
  | VDict d =>
      match dict_get "type" d with
      | Some (VStr t) => if String.eqb t "array" then dict_get "items" d else None
      | _ => None
      end
  | _ => None
  end.

(** [hash(v)] succeeds: lists and dicts cannot be members of a set. *)
Definition hashable (v : value) : bool :=
  match v with
  | VList _ | VDict _ => false
  | _ => true
  end.

(** A parameter of the reflected signature; [None] stands for
    [inspect.Parameter.empty]. *)
Record parameter : Type := {
  param_name : string;
  param_annotation : option annotation;
  param_default : option value
}.

(** What [function_to_json] reads of the callable: [fn_name] is
    [func.__name__], [None] for a callable without that attribute (a
    [functools.partial] object); [fn_doc] is [func.__doc__]; [fn_signature]
    is [None] when [inspect.signature] raises [ValueError]. *)
Record callable : Type := {
  fn_name : option string;
  fn_doc : option string;
  fn_signature : option (list parameter)
}.

Section schema.

(** [list(set(types))]: the elements without duplicates, in the iteration
    order of the set, which the language leaves open. *)
Variable set_order : list value -> list value.

(** The loop over [args] of the general [Union] case, on the results of
    parsing each argument: the names collected and the last [items]
    assigned. *)
Fixpoint union_loop (parsed_args : list (result value))
    (types : list value) (items : value) : result (list value * value) :=
  match parsed_args with
  | [] => Ok (types, items)
  | Raise e :: _ => Raise e
  | Ok parsed :: rest =>
      union_loop rest (types ++ [type_of_parsed parsed])
        (match array_items parsed with
         | Some it => it
         | None => items
         end)
  end.

(** The general [Union] case: the distinct names, and [items] when the
    loop assigned a true value to it. *)
Definition union_general (parsed_args : list (result value)) : result value :=
  match union_loop parsed_args [] VNone with
  | Raise e => Raise e
  | Ok (types, items) =>
      if forallb hashable types then
        let schema := [("type", VList (set_order types))] in
        Ok (VDict (if truthy items then dict_set "items" items schema else schema))
      else Raise TypeError
  end.

(** The [Union] branch of [parse_type], on the arguments paired with the
    result of parsing them.  An argument list with [type(None)] and one
    other member is an [Optional]; when its fragment is a dict with a
    [type], that fragment is returned with [nullable] set. *)
Definition union_schema (args : list (annotation * result value)) : result value :=
  if existsb (fun a => is_NoneType (fst a)) args then
    match List.filter (fun a => negb (is_NoneType (fst a))) args with
    | [(_, parsed)] =>
        match parsed with
        | Raise e => Raise e
        | Ok (VDict d) =>
            match dict_get "type" d with
            | Some _ => Ok (VDict (dict_set "nullable" (VBool true) d))
            | None => union_general (map snd args)
            end
        | Ok _ => union_general (map snd args)
        end
    | _ => union_general (map snd args)
    end
  else union_general (map snd args).

Fixpoint parse_type (a : annotation) : result value :=
  match a with
  | Union args => union_schema (map (fun arg => (arg, parse_type arg)) args)
  | ListOf args =>
      match args with
      | [] => Ok (VDict [("type", VStr "array"); ("items", VDict [("type", VStr "string")])])
      | arg :: _ =>
          match parse_type arg with
          | Raise e => Raise e
          | Ok parsed_items =>
              Ok (VDict [("type", VStr "array");
                         ("items", VDict [("type", type_of_parsed parsed_items)])])
          end
      end
  | DictOf args =>
      match args with
      | [_; value_type] =>
          match parse_type value_type with
          | Raise e => Raise e
          | Ok parsed_value =>
              Ok (VDict [("type", VStr "object");
                         ("additionalProperties",
                           match parsed_value with
                           | VDict _ => parsed_value
                           | _ => VDict [("type", VStr "string")]
                           end)])
          end
      | _ =>
          Ok (VDict [("type", VStr "object");
                     ("additionalProperties", VDict [("type", VStr "string")])])
      end
  | _ =>
      if hashable_annotation a then
        Ok (VDict [("type", VStr (match type_map a with
                                  | Some t => t
                                  | None => "string"
                                  end))])
      else Raise TypeError
  end.

(** The first loop of [function_to_json]: the [parameters] dict. *)
Fixpoint build_parameters (params : list parameter) (parameters : dict)
    : result dict :=
  match params with
  | [] => Ok parameters
  | param :: rest =>
      match
        match param_annotation param with
        | None => Ok (VDict [("type", VStr "string")])
        | Some ann => parse_type ann
        end
      with
      | Raise e => Raise e
      | Ok param_type =>
          build_parameters rest (dict_set (param_name param) param_type parameters)
      end
  end.

(** The names of the parameters whose default is [Parameter.empty]. *)
Definition required_names (params : list parameter) : list string :=
  map param_name
    (List.filter
       (fun param => match param_default param with
                     | None => true
                     | Some _ => false
                     end)
       params).

Definition function_to_json (func : callable) : result value :=
  match fn_signature func with
  | None =>
      (* the handler formats func.__name__ into its message *)
      match fn_name func with
      | Some _ => Raise ValueError
      | None => Raise AttributeError
      end
  | Some params =>
      match build_parameters params [] with
      | Raise e => Raise e
      | Ok parameters =>
          match fn_name func with
          | None => Raise AttributeError
          | Some name =>
              Ok (VDict
                    [("type", VStr "function");
                     ("function",
                       VDict
                         [("name", VStr name);
                          ("description",
                            VStr (match fn_doc func with
                                  | Some doc => doc
                                  | None => ""
                                  end));
                          ("parameters",
                            VDict
                              [("type", VStr "object");
                               ("properties", VDict parameters);
                               ("required",
                                 VList (map VStr (required_names params)))])])])
          end
      end
  end.

End schema.

(** One admissible iteration order of a set of strings: first occurrences,
    in order. *)
Fixpoint first_occurrences (seen : list string) (l : list value) : list value :=
  match l with
  | [] => []
  | VStr s :: l' =>
      if existsb (String.eqb s) seen then first_occurrences seen l'
      else VStr s :: first_occurrences (s :: seen) l'
  | v :: l' => v :: first_occurrences seen l'
  end.

Definition insertion_order (l : list value) : list value := first_occurrences [] l.

(** ** Places in a document *)

Inductive step : Type :=
  | Key (k : string)
  | Index (n : nat).

(** The value found by following [path] from [v]: through the fields of
    dicts and the positions of lists. *)
Fixpoint lookup_path (path : list step) (v : value) : option value :=
  match path with
  | [] => Some v
  | Key k :: path' =>
      match v with
      | VDict d =>
          match dict_get k d with
          | Some x => lookup_path path' x
          | None => None
          end
      | _ => None
      end
  | Index n :: path' =>
      match v with
      | VList l =>
          match l !! n with
          | Some x => lookup_path path' x
          | None => None
          end
      | _ => None
      end
  end.

(** [v[k]] when [v] is a dict holding the key. *)
Definition field (k : string) (v : value) : option value := lookup_path [Key k] v.

(** ** Vocabulary of the statements *)

(** The field values [merge_fields] acts on: strings and dicts. *)
Definition merges (v : value) : bool :=
  match v with
  | VStr _ | VDict _ => true
  | _ => false
  end.

(** Every object of [v'] stands where [v] had an object with the same
    keys: no object appeared and no object got or lost a key. *)
Definition keeps_objects (v v' : value) : Prop :=
  forall (path : list step) (d' : dict),
    lookup_path path v' = Some (VDict d') ->
    exists d, lookup_path path v = Some (VDict d) /\ dict_keys d = dict_keys d'.

(** What a field holding [val] does to the value [cur] stored under its
    key, and how that ends. *)
Definition merged_value (cur val : value) : value * outcome :=
  match val with
  | VStr s =>
      match iadd_str cur s with
      | Ok new => (new, Done)
      | Raise e => (cur, Raised e)
      end
  | VDict sub => merge_fields cur sub
  | _ => (cur, Done)
  end.

(** The worked example: an accumulator with two tool-call entries and a
    delta addressed to one of them. *)
Definition example_entry (arguments name id : string) : value :=
  VDict [("function", VDict [("arguments", VStr arguments); ("name", VStr name)]);
         ("id", VStr id)].

Definition example_accumulator : dict :=
  [("content", VStr "");
   ("tool_calls", VList [example_entry "{}" "f" "a"; example_entry "ar" "g" "b"])].

Definition example_fragment (index : Z) : dict :=
  [("index", VInt index); ("function", VDict [("arguments", VStr "go")])].

Definition example_delta (index : Z) : dict :=
  [("tool_calls", VList [VDict (example_fragment index)])].

(** Induction over annotations, with the hypothesis available for every
    argument of a generic alias. *)
Section annotation_induction.
Variable P : annotation -> Prop.
Hypothesis Hatom : forall a,
  (forall args, a <> Union args) -> (forall args, a <> ListOf args) ->
  (forall args, a <> DictOf args) -> P a.
Hypothesis HUnion : forall args, Forall P args -> P (Union args).
Hypothesis HListOf : forall args, Forall P args -> P (ListOf args).
Hypothesis HDictOf : forall args, Forall P args -> P (DictOf args).

Fixpoint annotation_ind (a : annotation) : P a :=
  let all :=
    fix all (args : list annotation) : Forall P args :=
      match args return Forall P args with
      | [] => @List.Forall_nil _ P
      | arg :: args' => @List.Forall_cons _ P arg args' (annotation_ind arg) (all args')
      end in
  match a return P a with
  | Union args => HUnion args (all args)
  | ListOf args => HListOf args (all args)
  | DictOf args => HDictOf args (all args)
  | a' => Hatom a' ltac:(discriminate) ltac:(discriminate) ltac:(discriminate)
  end.
End annotation_induction.

(** The [items] of the last member that is an array with [items], and of
    the first. *)
Fixpoint last_items (parsed : list value) : option value :=
  match parsed with
  | [] => None
  | p :: rest =>
      match last_items rest with
      | Some it => Some it
      | None => array_items p
      end
  end.

Fixpoint first_items (parsed : list value) : option value :=
  match parsed with
  | [] => None
  | p :: rest =>
      match array_items p with
      | Some it => Some it
      | None => first_items rest
      end
  end.

(** [arg] has origin [Union]. *)
Definition is_Union (a : annotation) : bool :=
  match a with
  | Union _ => true
  | _ => false
  end.

(** A union written [X | Y] between classes ([int | None]) is a
    [types.UnionType] object.  Before Python 3.14 its origin is
    [types.UnionType], which is not [typing.Union]: the test [origin is
    Union] fails, and so do the tests for [list] and [dict].  The object
    can be hashed and is no key of the table, so for the code it is an
    [Other] object; [text] is how it was written. *)
Definition bar_union (text : string) : annotation := Other text true.

(** Annotations as the [typing] module builds them from hashable parts:
    every object outside the forms above can be hashed, and no argument of
    a [Union] is itself a [Union] (nested unions are flattened). *)
Fixpoint typing_normal (a : annotation) : bool :=
  match a with
  | Other _ can_hash => can_hash
  | Union args => forallb (fun arg => negb (is_Union arg) && typing_normal arg) args
  | ListOf args => forallb typing_normal args
  | DictOf args => forallb typing_normal args
  | _ => true
  end.

(** [def lookup(key: Optional[str], limit: int = 10, *, tags: List[str])]:
    the [Optional] parameter without default is required, the plain one
    with a default is not. *)
Definition example_params : list parameter :=
  [{| param_name := "key";
      param_annotation := Some (Union [Tstr; TNoneType]);
      param_default := None |};
   {| param_name := "limit";
      param_annotation := Some Tint;
      param_default := Some (VInt 10) |};
   {| param_name := "tags";
      param_annotation := Some (ListOf [Tstr]);
      param_default := None |}].

Definition example_callable : callable :=
  {| fn_name := Some "lookup";
     fn_doc := Some "Look a key up";
     fn_signature := Some example_params |}.

Definition example_descriptor : value :=
  VDict
    [("type", VStr "function");
     ("function",
       VDict
         [("name", VStr "lookup");
          ("description", VStr "Look a key up");
          ("parameters",
            VDict
              [("type", VStr "object");
               ("properties",
                 VDict
                   [("key", VDict [("type", VStr "string"); ("nullable", VBool true)]);
                    ("limit", VDict [("type", VStr "integer")]);
                    ("tags", VDict [("type", VStr "array");
                                    ("items", VDict [("type", VStr "string")])])]);
               ("required", VList [VStr "key"; VStr "tags"])])])].

(** A delta the accumulator is ready for: in every dict of the delta the
    keys are distinct, a string field finds a string under its key and a
    dict field finds a value that is ready for it; other fields ask for
    nothing. *)
Fixpoint fits (source target : value) {struct source} : bool :=
  match source with
  | VDict fields =>
      match target with
      | VDict d =>
          bool_decide (NoDup (map fst fields)) &&
          forallb
            (fun kv =>
               let '(key, val) := kv in
               match val with
               | VStr _ =>
                   match dict_get key d with
                   | Some (VStr _) => true
                   | _ => false
                   end
               | VDict _ =>
                   match dict_get key d with
                   | Some cur => fits val cur
                   | None => false
                   end
               | _ => true
               end)
            fields
      | _ => false
      end
  | _ => true
  end.

(** What [fits] asks of the dict [d] for one field of the delta. *)
Definition field_fits (d : dict) (kv : string * value) : bool :=
  let '(key, val) := kv in
  match val with
  | VStr _ =>
      match dict_get key d with
      | Some (VStr _) => true
      | _ => false
      end
  | VDict _ =>
      match dict_get key d with
      | Some cur => fits val cur
      | None => false
      end
  | _ => true
  end.

(** The type names of JSON Schema that [type_map] and the generic branches
    produce. *)
Definition json_kinds : list string :=
  ["string"; "integer"; "number"; "boolean"; "array"; "object"; "null"].

(** A [type] entry: one of the names, or a list of them. *)
Definition valid_type (t : value) : Prop :=
  (exists s, t = VStr s /\ s ∈ json_kinds) \/
  (exists l, t = VList l /\ Forall (fun v => exists s, v = VStr s /\ s ∈ json_kinds) l).

(** * Facts about dictionaries *)

Lemma dict_get_set_eq (k : string) (v : value) (d : dict) :
  dict_get k (dict_set k v d) = Some v.
Proof.
  induction d as [|[k' v'] d IH]; simpl.
  - by rewrite String.eqb_refl.
  - destruct (String.eqb k k') eqn:E; simpl; rewrite E; auto.
Qed.

Lemma dict_get_set_ne (k k' : string) (v : value) (d : dict) :
  k <> k' -> dict_get k' (dict_set k v d) = dict_get k' d.
Proof.
  intros Hne. induction d as [|[k0 v0] d IH]; simpl.
  - apply String.eqb_neq in Hne. rewrite String.eqb_sym in Hne. by rewrite Hne.
  - destruct (String.eqb k k0) eqn:E; simpl.
    + apply String.eqb_eq in E. subst k0.
      destruct (String.eqb k' k) eqn:E'; auto.
      apply String.eqb_eq in E'. congruence.
    + destruct (String.eqb k' k0); auto.
Qed.

Lemma dict_keys_set (k : string) (v x : value) (d : dict) :
  dict_get k d = Some x -> dict_keys (dict_set k v d) = dict_keys d.
Proof.
  induction d as [|[k' v'] d IH]; simpl; [done|].
  destruct (String.eqb k k'); simpl; [done|].
  intros H. f_equal. auto.
Qed.

Lemma dict_get_del_ne (k k' : string) (d : dict) :
  k <> k' -> dict_get k' (dict_del k d) = dict_get k' d.
Proof.
  intros Hne. induction d as [|[k0 v0] d IH]; simpl; [done|].
  destruct (String.eqb k k0) eqn:E; simpl.
  - apply String.eqb_eq in E. subst k0.
    destruct (String.eqb k' k) eqn:E'; auto.
    apply String.eqb_eq in E'. congruence.
  - destruct (String.eqb k' k0); auto.
Qed.

Lemma dict_get_elem (k : string) (v : value) (d : dict) :
  dict_get k d = Some v -> (k, v) ∈ d.
Proof.
  induction d as [|[k' v'] d IH]; simpl; [done|].
  destruct (String.eqb k k') eqn:E.
  - apply String.eqb_eq in E. intros [= ->]. subst. apply elem_of_cons. by left.
  - intros H. apply elem_of_cons. right. auto.
Qed.

Lemma dict_get_None (k : string) (d : dict) :
  dict_get k d = None <-> k ∉ dict_keys d.
Proof.
  induction d as [|[k' v'] d IH]; simpl.
  - split; [intros _; apply not_elem_of_nil | done].
  - rewrite not_elem_of_cons. destruct (String.eqb k k') eqn:E.
    + apply String.eqb_eq in E. split; [done | intros [? _]; done].
    + apply String.eqb_neq in E. rewrite IH. tauto.
Qed.

Lemma dict_get_unique (k : string) (v : value) (d : dict) :
  NoDup (dict_keys d) -> (k, v) ∈ d -> dict_get k d = Some v.
Proof.
  induction d as [|[k' v'] d IH]; simpl.
  - intros _ H. by apply elem_of_nil in H.
  - rewrite NoDup_cons. intros [Hk Hd] H. apply elem_of_cons in H as [[= -> ->]|H].
    + by rewrite String.eqb_refl.
    + destruct (String.eqb k k') eqn:E; [|auto].
      apply String.eqb_eq in E. subst k'. exfalso. apply Hk.
      apply (list_elem_of_fmap_2 fst) in H. exact H.
Qed.

Lemma dict_del_elem (k : string) (kv : string * value) (d : dict) :
  kv ∈ dict_del k d -> kv ∈ d.
Proof.
  induction d as [|[k' v'] d IH]; simpl; [done|].
  destruct (String.eqb k k').
  - intros H. apply elem_of_cons. by right.
  - rewrite !elem_of_cons. intros [->|H]; auto.
Qed.

Lemma dict_del_NoDup (k : string) (d : dict) :
  NoDup (dict_keys d) -> NoDup (dict_keys (dict_del k d)).
Proof.
  induction d as [|[k' v'] d IH]; simpl; [done|].
  rewrite NoDup_cons. intros [Hk Hd]. destruct (String.eqb k k'); [done|].
  simpl. apply NoDup_cons. split; [|auto].
  intros H. apply Hk. apply list_elem_of_fmap in H as [kv [-> H]].
  apply list_elem_of_fmap_2. by apply dict_del_elem in H.
Qed.

Lemma dict_del_elem_ne (k k' : string) (v : value) (d : dict) :
  k <> k' -> (k', v) ∈ d -> (k', v) ∈ dict_del k d.
Proof.
  intros Hne. induction d as [|[k0 v0] d IH]; simpl; [done|].
  rewrite elem_of_cons. destruct (String.eqb k k0) eqn:E.
  - apply String.eqb_eq in E. subst k0. intros [[= ? ?]|H]; [congruence | done].
  - rewrite elem_of_cons. intros [H|H]; auto.
Qed.

Lemma dict_del_not_elem (k : string) (d : dict) :
  NoDup (dict_keys d) -> k ∉ dict_keys (dict_del k d).
Proof.
  induction d as [|[k' v'] d IH]; simpl.
  - intros _. apply not_elem_of_nil.
  - rewrite NoDup_cons. intros [Hk Hd]. destruct (String.eqb k k') eqn:E.
    + apply String.eqb_eq in E. by subst k'.
    + apply String.eqb_neq in E. simpl. rewrite not_elem_of_cons. auto.
Qed.

(** * Facts about merge_fields *)

Lemma merge_fields_nil (target : value) : merge_fields target [] = (target, Done).
Proof. reflexivity. Qed.

Lemma merge_fields_cons (target : value) (key : string) (val : value) (rest : dict) :
  merge_fields target ((key, val) :: rest) =
  match merge_field (merge_source val) target key val with
  | (target', Done) => merge_fields target' rest
  | (target', Raised e) => (target', Raised e)
  end.
Proof. reflexivity. Qed.

Lemma merge_source_dict (sub : dict) (cur : value) :
  merge_source (VDict sub) cur = merge_fields cur sub.
Proof. reflexivity. Qed.

(** The loop runs the fields in order and stops at the first that raises. *)
Lemma merge_fields_app (target : value) (s1 s2 : dict) :
  merge_fields target (s1 ++ s2) =
  match merge_fields target s1 with
  | (target', Done) => merge_fields target' s2
  | (target', Raised e) => (target', Raised e)
  end.
Proof.
  revert target. induction s1 as [|[k v] s1 IH]; intros target; [done|].
  rewrite <- app_comm_cons, !merge_fields_cons.
  destruct (merge_field (merge_source v) target k v) as [t' [|e]]; auto.
Qed.

Lemma merge_field_skip (recurse : value -> value * outcome)
    (target : value) (key : string) (val : value) :
  merges val = false -> merge_field recurse target key val = (target, Done).
Proof. by destruct val. Qed.

(** A field rewrites the value under its own key and nothing else. *)
Lemma merge_field_dict (recurse : value -> value * outcome)
    (d : dict) (key : string) (val t' : value) (r : outcome) :
  merge_field recurse (VDict d) key val = (t', r) ->
  exists d', t' = VDict d' /\ dict_keys d' = dict_keys d /\
             forall k, k <> key -> dict_get k d' = dict_get k d.
Proof.
  unfold merge_field. intros H.
  destruct val; try (injection H as <- <-; by exists d).
  - destruct (dict_get key d) as [cur|] eqn:Hget; [|injection H as <- <-; by exists d].
    destruct (iadd_str cur s) as [new|e]; injection H as <- <-; [|by exists d].
    exists (dict_set key new d). split_and!; [done|by eapply dict_keys_set|].
    intros k Hk. by apply dict_get_set_ne.
  - destruct (dict_get key d) as [cur|] eqn:Hget; [|injection H as <- <-; by exists d].
    destruct (recurse cur) as [cur' r']. injection H as <- <-.
    exists (dict_set key cur' d). split_and!; [done|by eapply dict_keys_set|].
    intros k Hk. by apply dict_get_set_ne.
Qed.

(** Merging into a dict leaves a dict with the same keys; a key whose
    fields in the delta are all skipped keeps its value. *)
Lemma merge_fields_dict (s : dict) : forall (d : dict) (t' : value) (r : outcome),
  merge_fields (VDict d) s = (t', r) ->
  exists d', t' = VDict d' /\ dict_keys d' = dict_keys d /\
             forall k, (forall v, (k, v) ∈ s -> merges v = false) ->
                       dict_get k d' = dict_get k d.
Proof.
  induction s as [|[key val] s IH]; intros d t' r.
  - rewrite merge_fields_nil. intros [= <- <-]. by exists d.
  - rewrite merge_fields_cons.
    destruct (merge_field (merge_source val) (VDict d) key val) as [t1 r1] eqn:Hstep.
    assert (Hskip : forall k, (forall v, (k, v) ∈ (key, val) :: s -> merges v = false) ->
                              k = key -> t1 = VDict d).
    { intros k Hk ->. rewrite merge_field_skip in Hstep; [congruence|].
      apply Hk, elem_of_cons. by left. }
    destruct (merge_field_dict _ _ _ _ _ _ Hstep) as (d1 & -> & Hkeys1 & Hget1).
    assert (Hd1 : forall k, (forall v, (k, v) ∈ (key, val) :: s -> merges v = false) ->
                            dict_get k d1 = dict_get k d).
    { intros k Hk. destruct (decide (k = key)) as [Heq|Hne]; [|auto].
      by injection (Hskip k Hk Heq) as ->. }
    destruct r1 as [|e].
    + intros H. destruct (IH _ _ _ H) as (d' & -> & Hkeys & Hget).
      exists d'. split_and!; [done|congruence|].
      intros k Hk. rewrite Hget, Hd1; [done|done|].
      intros v Hv. apply Hk, elem_of_cons. by right.
    + intros [= <- <-]. exists d1. split_and!; auto.
Qed.

(** A target that is not a dict cannot be subscripted by a field name:
    the first field that is a string or a dict raises. *)
Lemma merge_fields_not_dict (target : value) (s : dict) :
  (forall d, target <> VDict d) ->
  merge_fields target s =
  (target, if existsb (fun kv => merges (snd kv)) s then Raised TypeError else Done).
Proof.
  intros Ht. induction s as [|[key val] s IH]; [done|].
  rewrite merge_fields_cons. simpl.
  destruct (merges val) eqn:Hm; simpl.
  - destruct val; try discriminate; destruct target; try done; exfalso; by eapply Ht.
  - by rewrite merge_field_skip.
Qed.

Lemma keeps_objects_refl (v : value) : keeps_objects v v.
Proof. intros path d' H. by exists d'. Qed.

Lemma keeps_objects_trans (u v w : value) :
  keeps_objects u v -> keeps_objects v w -> keeps_objects u w.
Proof.
  intros Huv Hvw path d'' H.
  destruct (Hvw _ _ H) as (d' & H' & Hk').
  destruct (Huv _ _ H') as (d & H0 & Hk).
  exists d. split; [done|congruence].
Qed.

Lemma keeps_objects_dict_set (d : dict) (k : string) (cur new : value) :
  dict_get k d = Some cur -> keeps_objects cur new ->
  keeps_objects (VDict d) (VDict (dict_set k new d)).
Proof.
  intros Hget Hk [|[k'|n] path] d'; simpl.
  - intros [= <-]. exists d. split; [done|]. symmetry. by eapply dict_keys_set.
  - destruct (decide (k = k')) as [<-|Hne].
    + rewrite dict_get_set_eq, Hget. apply Hk.
    + rewrite dict_get_set_ne by done. intros H. by exists d'.
  - done.
Qed.

(** Every character of a string is a string. *)
Lemma chars_strings (s : string) :
  Forall (fun x => exists c, x = VStr c) (chars s).
Proof.
  induction s as [|c s IH]; simpl; [by apply Forall_nil|].
  destruct (starts_with_continuation s).
  - destruct (chars s) as [|[| | | |rest| |] others].
    + apply Forall_cons. split; [by eexists|done].
    + apply Forall_cons. split; [by eexists|done].
    + apply Forall_cons. split; [by eexists|done].
    + apply Forall_cons. split; [by eexists|done].
    + apply Forall_cons. split; [by eexists|done].
    + apply Forall_cons in IH as [_ IH]. apply Forall_cons. split; [by eexists|done].
    + apply Forall_cons. split; [by eexists|done].
    + apply Forall_cons. split; [by eexists|done].
  - apply Forall_cons. split; [by eexists|done].
Qed.

(** A string that is not empty has a first character. *)
Lemma chars_nonempty (c : ascii) (s : string) :
  (0 < length (chars (String c s)))%nat.
Proof.
  simpl. destruct (starts_with_continuation s); [|simpl; lia].
  destruct (chars s) as [|[| | | |rest| |] others]; simpl; lia.
Qed.

Lemma chars_lookup (s : string) (n : nat) (x : value) :
  chars s !! n = Some x -> exists c, x = VStr c.
Proof.
  intros H. apply list_elem_of_lookup_2 in H.
  pose proof (chars_strings s) as Hall. rewrite Forall_forall in Hall. by apply Hall.
Qed.

Lemma keeps_objects_iadd_str (cur new : value) (s : string) :
  iadd_str cur s = Ok new -> keeps_objects cur new.
Proof.
  destruct cur; try done; simpl; intros [= <-].
  - intros [|[k|n] path] d'; simpl; done.
  - intros [|[k|n] path] d'; simpl; try done.
    destruct (decide (n < length items)%nat) as [Hlt|Hge].
    + rewrite lookup_app_l by done. intros H. by exists d'.
    + rewrite lookup_app_r by lia.
      destruct (chars s !! (n - length items)%nat) as [x|] eqn:Hx; [|done].
      apply chars_lookup in Hx as [c ->]. by destruct path as [|[?|?] ?].
Qed.

Lemma keeps_objects_list_insert (l : list value) (n : nat) (x x' : value) :
  l !! n = Some x -> keeps_objects x x' ->
  keeps_objects (VList l) (VList (<[n := x']> l)).
Proof.
  intros Hl Hk [|[k|m] path] d'; simpl; try done.
  destruct (decide (n = m)) as [<-|Hne].
  - rewrite list_lookup_insert_eq by (by eapply lookup_lt_Some).
    rewrite Hl. apply Hk.
  - rewrite list_lookup_insert_ne by done. intros H. by exists d'.
Qed.

Lemma merge_field_keeps (recurse : value -> value * outcome)
    (target : value) (key : string) (val t' : value) (r : outcome) :
  (forall cur cur' r', recurse cur = (cur', r') -> keeps_objects cur cur') ->
  merge_field recurse target key val = (t', r) -> keeps_objects target t'.
Proof.
  intros Hrec. unfold merge_field.
  destruct val, target; intros H; try (injection H as <- <-; apply keeps_objects_refl).
  - destruct (dict_get key fields) as [cur|] eqn:Hget;
      [|injection H as <- <-; apply keeps_objects_refl].
    destruct (iadd_str cur s) as [new|e] eqn:Hadd; injection H as <- <-;
      [|apply keeps_objects_refl].
    eapply keeps_objects_dict_set; [done|]. by eapply keeps_objects_iadd_str.
  - destruct (dict_get key fields0) as [cur|] eqn:Hget;
      [|injection H as <- <-; apply keeps_objects_refl].
    destruct (recurse cur) as [cur' r'] eqn:Hr. injection H as <- <-.
    eapply keeps_objects_dict_set; [done|]. by eapply Hrec.
Qed.

Lemma merge_source_keeps (source : value) : forall (target t' : value) (r : outcome),
  merge_source source target = (t', r) -> keeps_objects target t'.
Proof.
  induction source as [| | | | | |fields IH] using value_ind;
    try (intros target t' r [= <- <-]; apply keeps_objects_refl).
  change (forall target t' r, merge_fields target fields = (t', r) -> keeps_objects target t').
  induction fields as [|[key val] rest IHrest]; intros target t' r.
  - rewrite merge_fields_nil. intros [= <- <-]. apply keeps_objects_refl.
  - apply Forall_cons in IH as [Hval Hrest]. simpl in Hval.
    rewrite merge_fields_cons.
    destruct (merge_field (merge_source val) target key val) as [t1 r1] eqn:Hstep.
    apply merge_field_keeps in Hstep; [|exact Hval].
    destruct r1 as [|e].
    + intros H. eapply keeps_objects_trans; [exact Hstep|]. by eapply IHrest.
    + by intros [= <- <-].
Qed.

Lemma merge_fields_keeps (target : value) (s : dict) (t' : value) (r : outcome) :
  merge_fields target s = (t', r) -> keeps_objects target t'.
Proof. apply (merge_source_keeps (VDict s)). Qed.

Lemma field_dict (k : string) (d : dict) : field k (VDict d) = dict_get k d.
Proof. unfold field. simpl. by destruct (dict_get k d). Qed.

Lemma merge_field_present (d : dict) (key : string) (cur val : value) :
  dict_get key d = Some cur ->
  exists d', merge_field (merge_source val) (VDict d) key val
             = (VDict d', snd (merged_value cur val)) /\
             dict_get key d' = Some (fst (merged_value cur val)).
Proof.
  intros Hget. unfold merge_field, merged_value.
  destruct val; try (by exists d); rewrite Hget.
  - destruct (iadd_str cur s) as [new|e]; [|by exists d].
    exists (dict_set key new d). by rewrite dict_get_set_eq.
  - rewrite merge_source_dict. destruct (merge_fields cur fields) as [cur' r].
    exists (dict_set key cur' d). by rewrite dict_get_set_eq.
Qed.

Lemma merge_field_absent (d : dict) (key : string) (val : value) :
  dict_get key d = None -> merges val = true ->
  merge_field (merge_source val) (VDict d) key val = (VDict d, Raised KeyError).
Proof. intros Hget Hm. unfold merge_field. destruct val; try done; by rewrite Hget. Qed.

(** With distinct keys in the delta, the value under the key of a field is
    touched by that field only. *)
Lemma merge_fields_field (s : dict) :
  forall (d : dict) (t' : value) (r : outcome) (k : string) (val : value),
  NoDup (dict_keys s) -> (k, val) ∈ s ->
  merge_fields (VDict d) s = (t', r) ->
  (forall cur, dict_get k d = Some cur -> r = Done ->
               snd (merged_value cur val) = Done /\
               field k t' = Some (fst (merged_value cur val))) /\
  (dict_get k d = None -> merges val = true -> r <> Done /\ field k t' = None).
Proof.
  induction s as [|[key v] s IH]; intros d t' r k val Hnd Hin.
  { by apply elem_of_nil in Hin. }
  simpl in Hnd. apply NoDup_cons in Hnd as [Hkey Hnd].
  rewrite merge_fields_cons. apply elem_of_cons in Hin as [[= -> ->]|Hin].
  - (* the field itself *)
    assert (Hrest : forall v', (key, v') ∈ s -> merges v' = false).
    { intros v' Hv'. exfalso. apply Hkey. by apply (list_elem_of_fmap_2 fst) in Hv'. }
    intros H. split.
    + intros cur Hcur Hr.
      destruct (merge_field_present d key cur v Hcur) as (d1 & Hstep & Hget1).
      rewrite Hstep in H.
      destruct (merged_value cur v) as [new [|e]]; simpl in *.
      * destruct (merge_fields_dict _ _ _ _ H) as (d' & -> & _ & Hsame).
        split; [done|]. rewrite field_dict, Hsame; auto.
      * injection H as <- <-. done.
    + intros Hnone Hm. rewrite merge_field_absent in H by done.
      injection H as <- <-. by rewrite field_dict.
  - (* a later field *)
    assert (Hne : k <> key).
    { intros ->. apply Hkey. by apply (list_elem_of_fmap_2 fst) in Hin. }
    destruct (merge_field (merge_source v) (VDict d) key v) as [t1 r1] eqn:Hstep.
    destruct (merge_field_dict _ _ _ _ _ _ Hstep) as (d1 & -> & _ & Hget1).
    destruct r1 as [|e].
    + intros H. destruct (IH _ _ _ _ _ Hnd Hin H) as [IH1 IH2].
      rewrite Hget1 in IH1, IH2 by done. by split.
    + intros [= <- <-]. split; [done|].
      intros Hnone _. split; [done|]. rewrite field_dict, Hget1; done.
Qed.

(** * Strings are appended; the key must be there *)

(** C1, as the code has it: for a string field of the delta whose key
    holds a string in the accumulator, a merge that completes leaves the
    old string followed by the delta's string under that key; when the key
    is absent from the accumulator, the merge raises and the key stays
    absent (nothing is created). *)
Theorem merge_fields_appends_string
    (target source : dict) (k v : string) (target' : value) (r : outcome) :
  NoDup (dict_keys source) ->
  (k, VStr v) ∈ source ->
  merge_fields (VDict target) source = (target', r) ->
  (forall old, dict_get k target = Some (VStr old) -> r = Done ->
               field k target' = Some (VStr (old +:+ v))) /\
  (dict_get k target = None -> r <> Done /\ field k target' = None).
Proof.
  intros Hnd Hin H.
  destruct (merge_fields_field _ _ _ _ _ _ Hnd Hin H) as [Hpresent Habsent].
  split.
  - intros old Hold Hr. by destruct (Hpresent _ Hold Hr) as [_ ->].
  - intros Hnone. by apply Habsent.
Qed.

(** A delta with the single field [k: v] appends to the string under [k]. *)
Lemma merge_fields_single_string (target : dict) (k v old : string) :
  dict_get k target = Some (VStr old) ->
  merge_fields (VDict target) [(k, VStr v)]
  = (VDict (dict_set k (VStr (old +:+ v)) target), Done).
Proof.
  intros Hget. rewrite merge_fields_cons. unfold merge_field. by rewrite Hget.
Qed.

(** A delta with the single field [k: v] raises [KeyError] when [k] is not
    in the accumulator. *)
Lemma merge_fields_single_absent (target : dict) (k v : string) :
  dict_get k target = None ->
  merge_fields (VDict target) [(k, VStr v)] = (VDict target, Raised KeyError).
Proof.
  intros Hget. rewrite merge_fields_cons. unfold merge_field. by rewrite Hget.
Qed.

(** Distinctness of concrete keys, by computation. *)
Lemma NoDup_check (names : list string) :
  bool_decide (NoDup names) = true -> NoDup names.
Proof. apply bool_decide_eq_true_1. Qed.

Lemma merge_fields_appends_string_witness :
  field "content" (fst (merge_fields (VDict [("content", VStr "H")]) [("content", VStr "ell")]))
  = Some (VStr "Hell").
Proof.
  refine (proj1 (merge_fields_appends_string
                   [("content", VStr "H")] [("content", VStr "ell")]
                   "content" "ell" _ Done _ _ _) "H" _ _).
  - apply NoDup_check. reflexivity.
  - apply list_elem_of_singleton. reflexivity.
  - reflexivity.
  - reflexivity.
  - reflexivity.
Defined.

(** C1 as stated fails: with the key absent the delta's string is not
    stored; [merge_fields], and [merge_chunk] with it, raise [KeyError] and
    leave the accumulator without the key. *)
Lemma merge_absent_key_not_created :
  merge_fields (VDict []) [("content", VStr "Hell")] = (VDict [], Raised KeyError) /\
  merge_chunk [("id", VStr "")] [("content", VStr "Hell")]
  = (VDict [("id", VStr "")], [("content", VStr "Hell")], Raised KeyError) /\
  field "content" (VDict [("id", VStr "")]) <> Some (VStr "Hell").
Proof. split_and!; [reflexivity | reflexivity | discriminate]. Qed.

(** * Routing of the tool-call entry *)

Lemma seq_position_in_range (len : nat) (i : Z) :
  0 <= i < Z.of_nat len -> seq_position len i = Some (Z.to_nat i).
Proof.
  intros [H0 H1]. unfold seq_position.
  replace (Z.ltb i 0) with false by (symmetry; apply Z.ltb_ge; lia).
  replace (Z.leb 0 i) with true by (symmetry; apply Z.leb_le; lia).
  replace (Z.ltb i (Z.of_nat len)) with true by (symmetry; apply Z.ltb_lt; lia).
  done.
Qed.

Lemma seq_position_past_end (len : nat) (i : Z) :
  Z.of_nat len <= i -> seq_position len i = None.
Proof.
  intros H. unfold seq_position.
  replace (Z.ltb i 0) with false by (symmetry; apply Z.ltb_ge; lia).
  replace (Z.ltb i (Z.of_nat len)) with false by (symmetry; apply Z.ltb_ge; lia).
  by rewrite andb_false_r.
Qed.

Lemma py_getitem_head (e : value) (rest : list value) :
  py_getitem (VList (e :: rest)) (VInt 0) = Ok e.
Proof.
  unfold py_getitem, as_index.
  rewrite seq_position_in_range by (simpl length; lia). done.
Qed.

Lemma py_getitem_field (d : dict) (k : string) (v : value) :
  dict_get k d = Some v -> py_getitem (VDict d) (VStr k) = Ok v.
Proof. intros H. unfold py_getitem. by rewrite H. Qed.

Lemma py_getitem_position (l : list value) (i : Z) (x : value) :
  0 <= i -> l !! Z.to_nat i = Some x -> py_getitem (VList l) (VInt i) = Ok x.
Proof.
  intros Hi Hx. unfold py_getitem, as_index.
  rewrite seq_position_in_range; [by rewrite Hx|].
  apply lookup_lt_Some in Hx. lia.
Qed.

Lemma py_getitem_past_end (l : list value) (i : Z) :
  Z.of_nat (length l) <= i -> py_getitem (VList l) (VInt i) = Raise IndexError.
Proof.
  intros Hi. unfold py_getitem, as_index. by rewrite seq_position_past_end.
Qed.

Lemma put_item_position (l : list value) (i : Z) (x : value) :
  0 <= i < Z.of_nat (length l) ->
  put_item (VList l) (VInt i) x = VList (<[Z.to_nat i := x]> l).
Proof.
  intros Hi. unfold put_item, as_index. by rewrite seq_position_in_range.
Qed.

(** The first statement of [merge_chunk] skips a [tool_calls] field that is
    neither a string nor a dict: the accumulator keeps what it has there. *)
Lemma first_phase_tool_calls (acc delta : dict) (tc t1 : value) (r : outcome) :
  NoDup (dict_keys delta) ->
  dict_get "tool_calls" delta = Some tc -> merges tc = false ->
  merge_fields (VDict acc) (dict_del "role" delta) = (t1, r) ->
  exists acc1, t1 = VDict acc1 /\
               dict_get "tool_calls" acc1 = dict_get "tool_calls" acc.
Proof.
  intros Hnd Htc Hm H.
  destruct (merge_fields_dict _ _ _ _ H) as (acc1 & -> & _ & Hsame).
  exists acc1. split; [done|]. apply Hsame. intros v Hv.
  apply dict_del_elem in Hv. apply dict_get_unique in Hv; [|done]. congruence.
Qed.

Lemma tool_calls_after_role (delta : dict) :
  dict_get "tool_calls" (dict_del "role" delta) = dict_get "tool_calls" delta.
Proof. by apply dict_get_del_ne. Qed.

(** The call of [merge_chunk] on a delta whose [tool_calls] is a list that
    starts with a dict holding an [index]. *)
Lemma merge_chunk_tool_call (acc delta entry : dict) (rest : list value)
    (index t1 : value) :
  dict_get "tool_calls" delta = Some (VList (VDict entry :: rest)) ->
  dict_get "index" entry = Some index ->
  merge_fields (VDict acc) (dict_del "role" delta) = (t1, Done) ->
  merge_chunk acc delta =
  let fields := dict_del "index" entry in
  let delta' :=
    dict_set "tool_calls" (VList (VDict fields :: rest)) (dict_del "role" delta) in
  match py_getitem t1 (VStr "tool_calls") with
  | Raise e => (t1, delta', Raised e)
  | Ok slots =>
      match py_getitem slots index with
      | Raise e => (t1, delta', Raised e)
      | Ok slot =>
          (put_item t1 (VStr "tool_calls")
             (put_item slots index (fst (merge_fields slot fields))),
           delta', snd (merge_fields slot fields))
      end
  end.
Proof.
  intros Htc Hidx H1. unfold merge_chunk.
  rewrite H1, tool_calls_after_role, Htc.
  cbn [truthy py_len].
  replace (Z.ltb 0 _) with true by (simpl length; symmetry; apply Z.ltb_lt; lia).
  unfold route_tool_call. rewrite py_getitem_head. cbn [pop_index]. rewrite Hidx.
  cbv zeta. destruct (py_getitem t1 (VStr "tool_calls")) as [slots|e]; [|done].
  destruct (py_getitem slots index) as [slot|e]; [|done].
  by destruct (merge_fields slot (dict_del "index" entry)).
Qed.

(** C3: when the delta's [tool_calls] starts with an entry carrying
    [index = i] and the accumulator's [tool_calls] has a position [i],
    [merge_chunk] merges the fields of that entry, without its [index],
    into the accumulator's entry at position [i] and ends as that merge
    ends; every other position keeps its entry, the sequence keeps its
    length, and the other entries of the delta's sequence play no part. *)
Theorem merge_chunk_routes_first_entry
    (acc delta entry : dict) (rest : list value) (i : Z)
    (acc1 : dict) (l : list value) (slot slot' : value) (r : outcome) :
  NoDup (dict_keys delta) ->
  dict_get "tool_calls" delta = Some (VList (VDict entry :: rest)) ->
  dict_get "index" entry = Some (VInt i) ->
  merge_fields (VDict acc) (dict_del "role" delta) = (VDict acc1, Done) ->
  dict_get "tool_calls" acc = Some (VList l) ->
  0 <= i -> l !! Z.to_nat i = Some slot ->
  merge_fields slot (dict_del "index" entry) = (slot', r) ->
  exists l',
    merge_chunk acc delta
    = (VDict (dict_set "tool_calls" (VList l') acc1),
       dict_set "tool_calls" (VList (VDict (dict_del "index" entry) :: rest))
         (dict_del "role" delta),
       r) /\
    l' !! Z.to_nat i = Some slot' /\
    length l' = length l /\
    forall m, m <> Z.to_nat i -> l' !! m = l !! m.
Proof.
  intros Hnd Htc Hidx H1 Hacc Hi Hslot Hmerge.
  destruct (first_phase_tool_calls _ _ _ _ _ Hnd Htc eq_refl H1)
    as (acc1' & [= <-] & Hsame).
  assert (Hlt : (Z.to_nat i < length l)%nat) by (by eapply lookup_lt_Some).
  exists (<[Z.to_nat i := slot']> l). split_and!.
  - rewrite (merge_chunk_tool_call _ _ _ _ _ _ Htc Hidx H1). cbv zeta.
    rewrite (py_getitem_field acc1 "tool_calls" (VList l)) by congruence.
    rewrite (py_getitem_position l i slot) by done.
    rewrite Hmerge. cbn [fst snd].
    rewrite put_item_position by lia. done.
  - by apply list_lookup_insert_eq.
  - apply length_insert.
  - intros m Hm. by apply list_lookup_insert_ne.
Qed.

(** C2, as the code has it: an integer index at or past the end of the
    accumulator's [tool_calls] list is not made to exist.  Once the fields
    of the delta are merged, [merge_chunk] raises [IndexError] and the list
    is as it was. *)
Theorem merge_chunk_index_past_end
    (acc delta entry : dict) (rest : list value) (i : Z)
    (t1 : value) (l : list value) :
  NoDup (dict_keys delta) ->
  dict_get "tool_calls" delta = Some (VList (VDict entry :: rest)) ->
  dict_get "index" entry = Some (VInt i) ->
  merge_fields (VDict acc) (dict_del "role" delta) = (t1, Done) ->
  dict_get "tool_calls" acc = Some (VList l) ->
  Z.of_nat (length l) <= i ->
  merge_chunk acc delta
  = (t1,
     dict_set "tool_calls" (VList (VDict (dict_del "index" entry) :: rest))
       (dict_del "role" delta),
     Raised IndexError) /\
  field "tool_calls" t1 = Some (VList l).
Proof.
  intros Hnd Htc Hidx H1 Hacc Hi.
  destruct (first_phase_tool_calls _ _ _ _ _ Hnd Htc eq_refl H1)
    as (acc1 & -> & Hsame).
  split.
  - rewrite (merge_chunk_tool_call _ _ _ _ _ _ Htc Hidx H1). cbv zeta.
    rewrite (py_getitem_field acc1 "tool_calls" (VList l)) by congruence.
    by rewrite py_getitem_past_end.
  - rewrite field_dict. congruence.
Qed.

Example merge_chunk_example_argo :
  fst (fst (merge_chunk example_accumulator (example_delta 1)))
  = VDict
      [("content", VStr "");
       ("tool_calls", VList [example_entry "{}" "f" "a"; example_entry "argo" "g" "b"])].
Proof. reflexivity. Qed.

Lemma merge_chunk_routes_first_entry_witness :
  exists l',
    merge_chunk example_accumulator (example_delta 1)
    = (VDict (dict_set "tool_calls" (VList l') example_accumulator),
       [("tool_calls", VList [VDict [("function", VDict [("arguments", VStr "go")])]])],
       Done) /\
    l' !! 1%nat = Some (example_entry "argo" "g" "b") /\
    length l' = 2%nat /\
    forall m, m <> 1%nat ->
      l' !! m = [example_entry "{}" "f" "a"; example_entry "ar" "g" "b"] !! m.
Proof.
  refine (merge_chunk_routes_first_entry
            example_accumulator (example_delta 1) (example_fragment 1) [] 1
            example_accumulator
            [example_entry "{}" "f" "a"; example_entry "ar" "g" "b"]
            (example_entry "ar" "g" "b") (example_entry "argo" "g" "b") Done
            _ _ _ _ _ _ _ _).
  - apply NoDup_check. reflexivity.
  - reflexivity.
  - reflexivity.
  - reflexivity.
  - reflexivity.
  - lia.
  - reflexivity.
  - reflexivity.
Defined.

Lemma merge_chunk_index_past_end_witness :
  merge_chunk example_accumulator (example_delta 2)
  = (VDict example_accumulator,
     [("tool_calls", VList [VDict [("function", VDict [("arguments", VStr "go")])]])],
     Raised IndexError) /\
  field "tool_calls" (VDict example_accumulator)
  = Some (VList [example_entry "{}" "f" "a"; example_entry "ar" "g" "b"]).
Proof.
  refine (merge_chunk_index_past_end
            example_accumulator (example_delta 2) (example_fragment 2) [] 2
            (VDict example_accumulator)
            [example_entry "{}" "f" "a"; example_entry "ar" "g" "b"]
            _ _ _ _ _ _).
  - apply NoDup_check. reflexivity.
  - reflexivity.
  - reflexivity.
  - reflexivity.
  - reflexivity.
  - simpl. lia.
Defined.

(** C2 as stated fails: a fragment addressed to index 2 of a two-entry
    sequence is not applied at a new position; the call ends with
    [IndexError], the out-of-range fault of list indexing, and the
    sequence still has two entries.  And a negative index is not an error:
    [-1] addresses the last entry. *)
Lemma merge_chunk_no_auto_extension :
  merge_chunk example_accumulator (example_delta 2)
  = (VDict example_accumulator,
     [("tool_calls", VList [VDict [("function", VDict [("arguments", VStr "go")])]])],
     Raised IndexError) /\
  merge_chunk example_accumulator (example_delta (-1))
  = merge_chunk example_accumulator (example_delta 1).
Proof. split; reflexivity. Qed.

(** * What the call does to the delta *)

Lemma py_getitem_str (s : string) (key x : value) :
  py_getitem (VStr s) key = Ok x -> exists c, x = VStr c.
Proof.
  unfold py_getitem. destruct (as_index key); [|done].
  destruct (seq_position _ _); [|done].
  destruct (chars s !! n) eqn:E; [|done].
  intros [= <-]. by eapply chars_lookup.
Qed.

Lemma py_getitem_dict_int (d : dict) (n : Z) :
  py_getitem (VDict d) (VInt n) = Raise KeyError.
Proof. reflexivity. Qed.

(** The [if] body either raises before the [pop] and leaves the delta as it
    is, or it has popped [index] from the first entry of the list. *)
Lemma route_tool_call_delta (final_response : value) (delta : dict) (tool_calls : value) :
  snd (fst (route_tool_call final_response delta tool_calls)) = delta \/
  exists entry rest index,
    tool_calls = VList (VDict entry :: rest) /\
    dict_get "index" entry = Some index /\
    snd (fst (route_tool_call final_response delta tool_calls))
    = dict_set "tool_calls" (VList (VDict (dict_del "index" entry) :: rest)) delta.
Proof.
  unfold route_tool_call.
  destruct (py_getitem tool_calls (VInt 0)) as [entry|e] eqn:Hget; [|by left].
  destruct (pop_index entry) as [[index fields]|e] eqn:Hpop; [|by left].
  right. destruct entry as [| | | | | |entry]; try done.
  simpl in Hpop. destruct (dict_get "index" entry) as [index'|] eqn:Hidx; [|done].
  injection Hpop as <- <-.
  destruct tool_calls as [| | | |s|l|d].
  1-4: done.
  - by apply py_getitem_str in Hget as [c Hc].
  - destruct l as [|e rest]; [done|]. rewrite py_getitem_head in Hget.
    injection Hget as ->. exists entry, rest, index'. split_and!; [done..|].
    destruct (py_getitem final_response (VStr "tool_calls")) as [slots|?]; [|done].
    destruct (py_getitem slots index') as [slot|?]; [|done].
    by destruct (merge_fields slot (dict_del "index" entry)).
  - done.
Qed.

(** The delta after the call is the delta without its role, or that with
    [index] popped from the first entry of its [tool_calls] list. *)
Lemma merge_chunk_delta_cases (acc delta : dict) :
  snd (fst (merge_chunk acc delta)) = dict_del "role" delta \/
  exists entry rest index,
    dict_get "tool_calls" (dict_del "role" delta) = Some (VList (VDict entry :: rest)) /\
    dict_get "index" entry = Some index /\
    snd (fst (merge_chunk acc delta))
    = dict_set "tool_calls" (VList (VDict (dict_del "index" entry) :: rest))
        (dict_del "role" delta).
Proof.
  unfold merge_chunk.
  destruct (merge_fields (VDict acc) (dict_del "role" delta)) as [t1 [|e]]; [|by left].
  destruct (dict_get "tool_calls" (dict_del "role" delta)) as [tc|] eqn:Htc; [|by left].
  destruct (truthy tc); [|by left].
  destruct (py_len tc) as [n|e]; [|by left].
  destruct (Z.ltb 0 n); [|by left].
  destruct (route_tool_call_delta t1 (dict_del "role" delta) tc)
    as [H|(entry & rest & index & -> & Hidx & H)]; [by left|].
  right. by exists entry, rest, index.
Qed.

(** C5, as the code has it: the delta does not come back unchanged.  The
    call always removes its [role] key.  When merging the fields of the
    delta completes and its [tool_calls] is a list whose first entry is a
    dict with an [index], the call also removes [index] from that entry;
    when merging the fields raises, or there is no such first entry,
    nothing else is removed.  The other keys of the delta hold what they
    held. *)
Theorem merge_chunk_delta_after (acc delta : dict) :
  let delta1 := dict_del "role" delta in
  let delta' := snd (fst (merge_chunk acc delta)) in
  (forall entry rest index,
     snd (merge_fields (VDict acc) delta1) = Done ->
     dict_get "tool_calls" delta1 = Some (VList (VDict entry :: rest)) ->
     dict_get "index" entry = Some index ->
     delta' = dict_set "tool_calls" (VList (VDict (dict_del "index" entry) :: rest)) delta1) /\
  (snd (merge_fields (VDict acc) delta1) <> Done -> delta' = delta1) /\
  ((forall entry rest,
      dict_get "tool_calls" delta1 = Some (VList (VDict entry :: rest)) ->
      dict_get "index" entry = None) ->
   delta' = delta1) /\
  (NoDup (dict_keys delta) ->
   ("role" ∉ dict_keys delta') /\
   (forall k, k <> "role" -> k <> "tool_calls" -> dict_get k delta' = dict_get k delta)).
Proof.
  cbv zeta. split_and!.
  - intros entry rest index Hdone Htc Hidx.
    destruct (merge_fields (VDict acc) (dict_del "role" delta)) as [t1 r1] eqn:H1.
    simpl in Hdone. subst r1. rewrite tool_calls_after_role in Htc.
    rewrite (merge_chunk_tool_call _ _ _ _ _ _ Htc Hidx H1). cbv zeta.
    destruct (py_getitem t1 (VStr "tool_calls")) as [slots|e]; [|done].
    by destruct (py_getitem slots index) as [slot|e].
  - intros Hraise. unfold merge_chunk.
    destruct (merge_fields (VDict acc) (dict_del "role" delta)) as [t1 [|e]]; done.
  - intros Hnone.
    destruct (merge_chunk_delta_cases acc delta)
      as [H|(entry & rest & index & Htc & Hidx & _)]; [done|].
    rewrite (Hnone _ _ Htc) in Hidx. done.
  - intros Hnd.
    pose proof (dict_del_not_elem "role" delta Hnd) as Hrole.
    destruct (merge_chunk_delta_cases acc delta)
      as [->|(entry & rest & index & Htc & Hidx & ->)].
    + split; [done|]. intros k Hk _. by apply dict_get_del_ne.
    + split.
      * by rewrite (dict_keys_set _ _ _ _ Htc).
      * intros k Hk Htool. rewrite dict_get_set_ne by done. by apply dict_get_del_ne.
Qed.

Lemma merge_chunk_delta_after_witness :
  snd (fst (merge_chunk example_accumulator (example_delta 1)))
  = [("tool_calls", VList [VDict [("function", VDict [("arguments", VStr "go")])]])] /\
  snd (fst (merge_chunk
              [("tool_calls", VList [VDict [("id", VStr "")]])]
              [("content", VStr "x");
               ("tool_calls", VList [VDict [("index", VInt 0); ("id", VStr "a")]])]))
  = [("content", VStr "x");
     ("tool_calls", VList [VDict [("index", VInt 0); ("id", VStr "a")]])].
Proof.
  split.
  - refine (proj1 (merge_chunk_delta_after example_accumulator (example_delta 1))
              (example_fragment 1) [] (VInt 1) _ _ _); reflexivity.
  - refine (proj1 (proj2 (merge_chunk_delta_after
                            [("tool_calls", VList [VDict [("id", VStr "")]])]
                            [("content", VStr "x");
                             ("tool_calls",
                               VList [VDict [("index", VInt 0); ("id", VStr "a")]])])) _).
    discriminate.
Defined.

(** C5 as stated fails: the delta is changed by the call.  Its [role] is
    gone afterwards, and so is the [index] of its tool-call entry. *)
Lemma merge_chunk_changes_delta :
  snd (fst (merge_chunk [("content", VStr "Hell")]
              [("role", VStr "assistant"); ("content", VStr "o")]))
  = [("content", VStr "o")] /\
  snd (fst (merge_chunk example_accumulator (example_delta 1)))
  = [("tool_calls", VList [VDict [("function", VDict [("arguments", VStr "go")])]])] /\
  [("content", VStr "o")] <> [("role", VStr "assistant"); ("content", VStr "o")] /\
  [("tool_calls", VList [VDict [("function", VDict [("arguments", VStr "go")])]])]
  <> example_delta 1.
Proof. split_and!; [reflexivity | reflexivity | discriminate | discriminate]. Qed.

(** * A call that raises keeps what it merged so far *)

(** C6, as the code has it: the call is not atomic.  The fields of the
    delta are merged in order; when merging a field raises, the fields
    before it stay merged into the accumulator, the fields after it are not
    applied, and the call ends with the error of that field. *)
Theorem merge_chunk_stops_at_first_failure
    (acc delta pre post : dict) (key : string) (val t1 t2 : value) (e : exn) :
  dict_del "role" delta = (pre ++ (key, val) :: post)%list ->
  merge_fields (VDict acc) pre = (t1, Done) ->
  merge_fields t1 [(key, val)] = (t2, Raised e) ->
  merge_fields (VDict acc) (dict_del "role" delta) = (t2, Raised e) /\
  merge_chunk acc delta = (t2, dict_del "role" delta, Raised e).
Proof.
  intros Hsplit Hpre Hfail.
  assert (H : merge_fields (VDict acc) (dict_del "role" delta) = (t2, Raised e)).
  { rewrite Hsplit, merge_fields_app, Hpre.
    change ((key, val) :: post) with ([(key, val)] ++ post)%list.
    by rewrite merge_fields_app, Hfail. }
  split; [done|]. unfold merge_chunk. by rewrite H.
Qed.

Lemma merge_chunk_stops_at_first_failure_witness :
  merge_fields (VDict [("content", VStr "H"); ("id", VStr "")])
    [("content", VStr "i"); ("name", VStr "x"); ("id", VStr "7")]
  = (VDict [("content", VStr "Hi"); ("id", VStr "")], Raised KeyError) /\
  merge_chunk [("content", VStr "H"); ("id", VStr "")]
    [("content", VStr "i"); ("name", VStr "x"); ("id", VStr "7")]
  = (VDict [("content", VStr "Hi"); ("id", VStr "")],
     [("content", VStr "i"); ("name", VStr "x"); ("id", VStr "7")],
     Raised KeyError).
Proof.
  refine (merge_chunk_stops_at_first_failure
            [("content", VStr "H"); ("id", VStr "")]
            [("content", VStr "i"); ("name", VStr "x"); ("id", VStr "7")]
            [("content", VStr "i")] [("id", VStr "7")] "name" (VStr "x")
            (VDict [("content", VStr "Hi"); ("id", VStr "")])
            (VDict [("content", VStr "Hi"); ("id", VStr "")])
            KeyError _ _ _).
  - reflexivity.
  - reflexivity.
  - reflexivity.
Defined.

(** C6 as stated fails: the call below raises [KeyError] at the field
    [name], and by then [content] has been merged: the accumulator is
    neither as before the call nor holds the whole delta.  The same happens
    across the two statements of [merge_chunk]: the out-of-range index
    raises after [content] was merged. *)
Lemma merge_chunk_not_atomic :
  merge_chunk [("content", VStr "H"); ("id", VStr "")]
    [("content", VStr "i"); ("name", VStr "x"); ("id", VStr "7")]
  = (VDict [("content", VStr "Hi"); ("id", VStr "")],
     [("content", VStr "i"); ("name", VStr "x"); ("id", VStr "7")],
     Raised KeyError) /\
  VDict [("content", VStr "Hi"); ("id", VStr "")]
  <> VDict [("content", VStr "H"); ("id", VStr "")] /\
  fst (merge_chunk example_accumulator (("content", VStr "Hi") :: example_delta 2))
  = (VDict (dict_set "content" (VStr "Hi") example_accumulator),
     [("content", VStr "Hi");
      ("tool_calls", VList [VDict [("function", VDict [("arguments", VStr "go")])]])]) /\
  snd (merge_chunk example_accumulator (("content", VStr "Hi") :: example_delta 2))
  = Raised IndexError.
Proof. split_and!; [reflexivity | discriminate | reflexivity | reflexivity]. Qed.

(** * Nothing is inserted *)

Lemma put_item_keeps (container key x x' : value) :
  py_getitem container key = Ok x -> keeps_objects x x' ->
  keeps_objects container (put_item container key x').
Proof.
  intros Hget Hk. destruct container as [| | | |s|l|d]; try apply keeps_objects_refl.
  - unfold py_getitem in Hget. unfold put_item.
    destruct (as_index key) as [i|]; [|apply keeps_objects_refl].
    destruct (seq_position (length l) i) as [n|]; [|apply keeps_objects_refl].
    destruct (l !! n) as [y|] eqn:Hy; [|done]. injection Hget as ->.
    by eapply keeps_objects_list_insert.
  - unfold py_getitem in Hget. unfold put_item.
    destruct key as [| | | |k| |]; try apply keeps_objects_refl.
    destruct (dict_get k d) as [y|] eqn:Hy; [|done]. injection Hget as ->.
    by eapply keeps_objects_dict_set.
Qed.

Lemma route_tool_call_keeps (final_response : value) (delta : dict)
    (tool_calls final_response' : value) (delta' : dict) (r : outcome) :
  route_tool_call final_response delta tool_calls = (final_response', delta', r) ->
  keeps_objects final_response final_response'.
Proof.
  unfold route_tool_call.
  destruct (py_getitem tool_calls (VInt 0)) as [entry|e];
    [|intros [= <- _ _]; apply keeps_objects_refl].
  destruct (pop_index entry) as [[index fields]|e];
    [|intros [= <- _ _]; apply keeps_objects_refl].
  destruct (py_getitem final_response (VStr "tool_calls")) as [slots|e] eqn:Hslots;
    [|intros [= <- _ _]; apply keeps_objects_refl].
  destruct (py_getitem slots index) as [slot|e] eqn:Hslot;
    [|intros [= <- _ _]; apply keeps_objects_refl].
  destruct (merge_fields slot fields) as [slot' r'] eqn:Hmerge.
  intros [= <- _ _].
  apply put_item_keeps with (x := slots); [done|].
  apply put_item_keeps with (x := slot); [done|].
  by eapply merge_fields_keeps.
Qed.

Lemma merge_chunk_keeps (acc delta : dict) (acc' : value) (delta' : dict) (r : outcome) :
  merge_chunk acc delta = (acc', delta', r) -> keeps_objects (VDict acc) acc'.
Proof.
  unfold merge_chunk.
  destruct (merge_fields (VDict acc) (dict_del "role" delta)) as [t1 r1] eqn:H1.
  apply merge_fields_keeps in H1.
  destruct r1 as [|e]; [|by intros [= <- _ _]].
  destruct (dict_get "tool_calls" (dict_del "role" delta)) as [tc|];
    [|by intros [= <- _ _]].
  destruct (truthy tc); [|by intros [= <- _ _]].
  destruct (py_len tc) as [n|e]; [|by intros [= <- _ _]].
  destruct (Z.ltb 0 n); [|by intros [= <- _ _]].
  intros H. apply route_tool_call_keeps in H. by eapply keeps_objects_trans.
Qed.

Lemma put_item_list_length (l : list value) (key x : value) :
  exists l', put_item (VList l) key x = VList l' /\ length l' = length l.
Proof.
  unfold put_item. destruct (as_index key) as [i|]; [|by exists l].
  destruct (seq_position (length l) i) as [n|]; [|by exists l].
  exists (<[n := x]> l). split; [done|]. apply length_insert.
Qed.

(** The [if] body leaves a [tool_calls] list of the accumulator with the
    length it has. *)
Lemma route_tool_call_length (acc1 delta : dict) (tool_calls final_response' : value)
    (delta' : dict) (r : outcome) (l : list value) :
  route_tool_call (VDict acc1) delta tool_calls = (final_response', delta', r) ->
  dict_get "tool_calls" acc1 = Some (VList l) ->
  exists l', field "tool_calls" final_response' = Some (VList l') /\
             length l' = length l.
Proof.
  intros H Hl. unfold route_tool_call in H.
  assert (Hsame : field "tool_calls" (VDict acc1) = Some (VList l))
    by (by rewrite field_dict).
  destruct (py_getitem tool_calls (VInt 0)) as [entry|e];
    [|injection H as <- _ _; by exists l].
  destruct (pop_index entry) as [[index fields]|e];
    [|injection H as <- _ _; by exists l].
  rewrite (py_getitem_field _ _ _ Hl) in H.
  destruct (py_getitem (VList l) index) as [slot|e];
    [|injection H as <- _ _; by exists l].
  destruct (merge_fields slot fields) as [slot' r'].
  injection H as <- _ _.
  destruct (put_item_list_length l index slot') as (l' & Hput & Hlen).
  exists l'. split; [|done]. rewrite field_dict, dict_get_set_eq. f_equal. exact Hput.
Qed.

(** A [tool_calls] that is a string or a dict never gets through the [if]
    body: its element [0] is a character, or is missing. *)
Lemma route_tool_call_raises (final_response : value) (delta : dict) (tool_calls : value) :
  merges tool_calls = true ->
  exists e, snd (route_tool_call final_response delta tool_calls) = Raised e.
Proof.
  intros Hm. unfold route_tool_call. destruct tool_calls as [| | | |s| |d]; try done.
  - destruct (py_getitem (VStr s) (VInt 0)) as [x|e] eqn:Hx; [|by exists e].
    apply py_getitem_str in Hx as [c ->]. by exists AttributeError.
  - rewrite py_getitem_dict_int. by exists KeyError.
Qed.

Lemma chars_empty (s : string) : truthy (VStr s) = false -> chars s = [].
Proof. by destruct s. Qed.

(** C10: a delta whose keys are distinct, merged by a call that completes,
    leaves every object of the accumulator with the keys it had (each
    object after the call stands where an object with the same keys stood
    before), and leaves a [tool_calls] list of the accumulator with the
    number of entries it had. *)
Theorem merge_chunk_inserts_nothing
    (acc delta : dict) (acc' : value) (delta' : dict) :
  NoDup (dict_keys delta) ->
  merge_chunk acc delta = (acc', delta', Done) ->
  keeps_objects (VDict acc) acc' /\
  forall l, dict_get "tool_calls" acc = Some (VList l) ->
            exists l', field "tool_calls" acc' = Some (VList l') /\
                       length l' = length l.
Proof.
  intros Hnd H. split; [by eapply merge_chunk_keeps|].
  intros l Hl. unfold merge_chunk in H.
  destruct (merge_fields (VDict acc) (dict_del "role" delta)) as [t1 r1] eqn:H1.
  destruct r1 as [|e]; [|done].
  assert (Hnd1 : NoDup (dict_keys (dict_del "role" delta))) by (by apply dict_del_NoDup).
  (* the accumulator's list after the first statement *)
  assert (Hfirst : exists acc1 l1, t1 = VDict acc1 /\
            dict_get "tool_calls" acc1 = Some (VList l1) /\
            (length l1 = length l \/
             exists tc, dict_get "tool_calls" (dict_del "role" delta) = Some tc /\
                        merges tc = true /\ truthy tc = true)).
  { destruct (merge_fields_dict _ _ _ _ H1) as (acc1 & -> & _ & Hsame).
    exists acc1.
    destruct (dict_get "tool_calls" (dict_del "role" delta)) as [tc|] eqn:Htc.
    - pose proof (dict_get_elem _ _ _ Htc) as Hin.
      destruct (merges tc) eqn:Hm.
      + destruct (merge_fields_field _ _ _ _ _ _ Hnd1 Hin H1) as [Hpresent _].
        destruct (Hpresent _ Hl eq_refl) as [Hdone Hfield].
        rewrite field_dict in Hfield.
        destruct tc as [| | | |s| |sub]; try done.
        * simpl in Hfield. exists (l ++ chars s)%list. split; [done|]. split; [done|].
          destruct (truthy (VStr s)) eqn:Ht.
          -- right. by exists (VStr s).
          -- left. rewrite (chars_empty s Ht). by rewrite app_nil_r.
        * simpl in Hfield. rewrite merge_fields_not_dict in Hfield by done.
          exists l. split; [done|]. split; [done|]. by left.
      + exists l. split; [done|]. split; [|by left]. rewrite <- Hl. apply Hsame.
        intros v Hv. apply dict_get_unique in Hv; [|done]. congruence.
    - exists l. split; [done|]. split; [|by left]. rewrite <- Hl. apply Hsame.
      intros v Hv. apply dict_get_None in Htc. exfalso. apply Htc.
      by apply (list_elem_of_fmap_2 fst) in Hv. }
  destruct Hfirst as (acc1 & l1 & -> & Hl1 & Hcases).
  assert (Hstay : exists l', field "tool_calls" (VDict acc1) = Some (VList l') /\
                             length l' = length l1)
    by (exists l1; by rewrite field_dict).
  destruct (dict_get "tool_calls" (dict_del "role" delta)) as [tc|] eqn:Htc.
  - destruct Hcases as [Hlen|(tc' & [= <-] & Hm & Ht)].
    + rewrite <- Hlen.
      destruct (truthy tc); [|by injection H as <- _].
      destruct (py_len tc) as [n|e]; [|done].
      destruct (Z.ltb 0 n); [|by injection H as <- _].
      by eapply route_tool_call_length.
    + exfalso. rewrite Ht in H.
      destruct (py_len tc) as [n|e] eqn:Hn; [|done].
      destruct (route_tool_call_raises (VDict acc1) (dict_del "role" delta) tc Hm)
        as [e He].
      destruct (Z.ltb 0 n) eqn:Hpos.
      * rewrite H in He. done.
      * apply Z.ltb_ge in Hpos.
        destruct tc as [| | | |s| |d]; try done.
        -- destruct s as [|c s]; [done|].
           assert (Hlen : n = Z.of_nat (length (chars (String c s))))
             by (unfold py_len in Hn; congruence).
           pose proof (chars_nonempty c s). lia.
        -- destruct d; [done|]. injection Hn as <-. simpl in Hpos. lia.
  - destruct Hcases as [Hlen|(tc' & [=] & _)]. rewrite <- Hlen.
    by injection H as <- _.
Qed.

Lemma merge_chunk_inserts_nothing_witness :
  keeps_objects (VDict example_accumulator)
    (fst (fst (merge_chunk example_accumulator (example_delta 1)))) /\
  forall l, dict_get "tool_calls" example_accumulator = Some (VList l) ->
            exists l',
              field "tool_calls"
                (fst (fst (merge_chunk example_accumulator (example_delta 1))))
              = Some (VList l') /\
              length l' = length l.
Proof.
  refine (merge_chunk_inserts_nothing
            example_accumulator (example_delta 1) _
            (snd (fst (merge_chunk example_accumulator (example_delta 1)))) _ _).
  - apply NoDup_check. reflexivity.
  - reflexivity.
Defined.

(** * Strings through merge_chunk *)

(** The [if] body changes nothing but the [tool_calls] of the accumulator. *)
Lemma route_tool_call_other_keys (acc1 delta : dict) (tool_calls final_response' : value)
    (delta' : dict) (r : outcome) (k : string) :
  route_tool_call (VDict acc1) delta tool_calls = (final_response', delta', r) ->
  k <> "tool_calls" ->
  field k final_response' = dict_get k acc1.
Proof.
  intros H Hk. unfold route_tool_call in H.
  destruct (py_getitem tool_calls (VInt 0)) as [entry|e];
    [|injection H as <- _ _; apply field_dict].
  destruct (pop_index entry) as [[index fields]|e];
    [|injection H as <- _ _; apply field_dict].
  destruct (py_getitem (VDict acc1) (VStr "tool_calls")) as [slots|e];
    [|injection H as <- _ _; apply field_dict].
  destruct (py_getitem slots index) as [slot|e];
    [|injection H as <- _ _; apply field_dict].
  destruct (merge_fields slot fields) as [slot' r'].
  injection H as <- _ _. cbn [put_item].
  rewrite field_dict. apply dict_get_set_ne. congruence.
Qed.

(** X7: the appending of C1 seen from [merge_chunk]: every string field of the
    delta other than [role] is appended by a call that completes. *)
Lemma merge_chunk_appends_string
    (acc delta : dict) (k v old : string) (acc' : value) (delta' : dict) :
  NoDup (dict_keys delta) ->
  (k, VStr v) ∈ delta -> k <> "role" ->
  dict_get k acc = Some (VStr old) ->
  merge_chunk acc delta = (acc', delta', Done) ->
  field k acc' = Some (VStr (old +:+ v)).
Proof.
  intros Hnd Hin Hrole Hold H. unfold merge_chunk in H.
  destruct (merge_fields (VDict acc) (dict_del "role" delta)) as [t1 r1] eqn:H1.
  destruct r1 as [|e]; [|done].
  assert (Hin1 : (k, VStr v) ∈ dict_del "role" delta)
    by (apply dict_del_elem_ne; [congruence|done]).
  assert (Hnd1 : NoDup (dict_keys (dict_del "role" delta))) by (by apply dict_del_NoDup).
  destruct (merge_fields_field _ _ _ _ _ _ Hnd1 Hin1 H1) as [Hpresent _].
  destruct (Hpresent _ Hold eq_refl) as [_ Happ]. simpl in Happ.
  destruct (merge_fields_dict _ _ _ _ H1) as (acc1 & -> & _ & _).
  rewrite field_dict in Happ.
  destruct (dict_get "tool_calls" (dict_del "role" delta)) as [tc|] eqn:Htc;
    [|injection H as <- _; by rewrite field_dict].
  destruct (truthy tc) eqn:Ht; [|injection H as <- _; by rewrite field_dict].
  destruct (py_len tc) as [n|e]; [|done].
  destruct (Z.ltb 0 n); [|injection H as <- _; by rewrite field_dict].
  destruct (decide (k = "tool_calls")) as [->|Hk].
  - exfalso. apply dict_get_unique in Hin1; [|done].
    rewrite Htc in Hin1. injection Hin1 as ->.
    destruct (route_tool_call_raises (VDict acc1) (dict_del "role" delta) (VStr v) eq_refl)
      as [e He].
    rewrite H in He. done.
  - by rewrite (route_tool_call_other_keys _ _ _ _ _ _ _ H Hk).
Qed.

(** * Facts about parse_type *)

Lemma last_items_elem (parsed : list value) (it : value) :
  last_items parsed = Some it -> exists p, p ∈ parsed /\ array_items p = Some it.
Proof.
  induction parsed as [|p rest IH]; simpl; [done|].
  destruct (last_items rest) as [it'|].
  - intros [= ->]. destruct (IH eq_refl) as (q & Hq & Hit).
    exists q. split; [|done]. apply elem_of_cons. by right.
  - intros H. exists p. split; [|done]. apply elem_of_cons. by left.
Qed.

Lemma array_items_nullable (d : dict) (v : value) :
  array_items (VDict (dict_set "nullable" v d)) = array_items (VDict d).
Proof.
  unfold array_items. rewrite !dict_get_set_ne by done. done.
Qed.

Section schema_facts.

Variable set_order : list value -> list value.

Lemma parse_type_Union (args : list annotation) :
  parse_type set_order (Union args)
  = union_schema set_order (map (fun arg => (arg, parse_type set_order arg)) args).
Proof. reflexivity. Qed.

Lemma existsb_paired {A B : Type} (f : A -> bool) (g : A -> B) (l : list A) :
  existsb (fun a => f (fst a)) (map (fun x => (x, g x)) l) = existsb f l.
Proof. induction l as [|x l IH]; simpl; [done|]. by rewrite IH. Qed.

Lemma filter_paired {A B : Type} (f : A -> bool) (g : A -> B) (l : list A) :
  List.filter (fun a => f (fst a)) (map (fun x => (x, g x)) l)
  = map (fun x => (x, g x)) (List.filter f l).
Proof.
  induction l as [|x l IH]; simpl; [done|].
  destruct (f x); simpl; by rewrite IH.
Qed.

Lemma snd_paired {A B : Type} (g : A -> B) (l : list A) :
  map snd (map (fun x => (x, g x)) l) = map g l.
Proof. induction l as [|x l IH]; simpl; [done|]. by rewrite IH. Qed.

Lemma filter_elem {A : Type} (f : A -> bool) (l : list A) (x : A) :
  x ∈ List.filter f l -> x ∈ l.
Proof.
  induction l as [|y l IH]; simpl; [done|].
  destruct (f y); rewrite ?elem_of_cons; intros H; [destruct H|]; auto.
Qed.

(** The loop of the general case when no argument raises: the names in
    argument order, and the [items] of the last array member. *)
Lemma union_loop_ok (parsed : list value) : forall (types : list value) (items : value),
  union_loop (map Ok parsed) types items
  = Ok ((types ++ map type_of_parsed parsed)%list, default items (last_items parsed)).
Proof.
  induction parsed as [|p rest IH]; intros types items; simpl.
  - by rewrite app_nil_r.
  - rewrite IH, <- app_assoc. simpl. do 2 f_equal.
    destruct (last_items rest); [done|]. by destruct (array_items p).
Qed.

(** A result of the general case: the [type] is a list. *)
Lemma union_general_fragment (parsed_args : list (result value)) (p : value) :
  union_general set_order parsed_args = Ok p ->
  exists d types, p = VDict d /\ dict_get "type" d = Some (VList types) /\
                  array_items p = None.
Proof.
  unfold union_general.
  destruct (union_loop parsed_args [] VNone) as [[types items]|e]; [|done].
  destruct (forallb hashable types); [|done].
  intros [= <-]. destruct (truthy items).
  - exists (dict_set "items" items [("type", VList (set_order types))]), (set_order types).
    by split_and!.
  - by exists [("type", VList (set_order types))], (set_order types).
Qed.

(** Whatever the annotation, a fragment returned by [parse_type] is a
    dict with a [type] key, and its [items], when it is an array with
    [items], is a non-empty dict. *)
Lemma parse_type_fragment (a : annotation) : forall (p : value),
  parse_type set_order a = Ok p ->
  exists d, p = VDict d /\ is_Some (dict_get "type" d) /\
            forall it, array_items p = Some it -> truthy it = true.
Proof.
  induction a as [a Hu Hl Hd|args IH|args IH|args IH] using annotation_ind; intros p.
  - destruct a as [| | | | | | |name h|args|args|args]; simpl;
      try (by (exfalso; first [by eapply Hu | by eapply Hl | by eapply Hd]));
      try (intros [= <-]; eexists; split_and!; [done|by eexists|done]).
    destruct h; [|done].
    intros [= <-]; eexists; split_and!; [done|by eexists|done].
  - rewrite parse_type_Union. unfold union_schema.
    set (paired := map (fun arg => (arg, parse_type set_order arg)) args).
    assert (Hgen : union_general set_order (map snd paired) = Ok p ->
              exists d, p = VDict d /\ is_Some (dict_get "type" d) /\
                        forall it, array_items p = Some it -> truthy it = true).
    { intros H. destruct (union_general_fragment _ _ H) as (d & types & -> & Ht & Hit).
      exists d. split_and!; [done|by eexists|]. intros it. by rewrite Hit. }
    destruct (existsb _ paired); [|done].
    destruct (List.filter _ paired) as [|[T parsed] [|? ?]] eqn:Hf; try done.
    destruct parsed as [parsed|e]; [|done].
    destruct parsed as [| | | | | |d]; try done.
    destruct (dict_get "type" d) as [t|] eqn:Ht; [|done].
    intros [= <-].
    assert (HT : (T, Ok (VDict d)) ∈ paired).
    { apply (filter_elem (fun a => negb (is_NoneType (fst a)))). rewrite Hf.
      apply elem_of_cons. by left. }
    apply list_elem_of_fmap in HT as (T' & [= <- HT'] & Hin).
    rewrite Forall_forall in IH.
    destruct (IH _ Hin _ (eq_sym HT')) as (d' & [= <-] & _ & Hitems).
    eexists. split_and!; [done| |].
    + rewrite dict_get_set_ne by done. by eexists.
    + intros it. rewrite array_items_nullable. apply Hitems.
  - destruct args as [|arg args]; simpl.
    + intros [= <-]. eexists. split_and!; [done|by eexists|].
      intros it [= <-]. done.
    + destruct (parse_type set_order arg) as [q|e]; [|done].
      intros [= <-]. eexists. split_and!; [done|by eexists|].
      intros it [= <-]. done.
  - assert (Hobj : forall extra, exists d,
              VDict [("type", VStr "object"); ("additionalProperties", extra)] = VDict d /\
              is_Some (dict_get "type" d) /\
              forall it, array_items
                           (VDict [("type", VStr "object"); ("additionalProperties", extra)])
                         = Some it -> truthy it = true).
    { intros extra. eexists. split_and!; [done|by eexists|done]. }
    destruct args as [|k [|value_type [|? ?]]]; simpl; try (intros [= <-]; apply Hobj).
    destruct (parse_type set_order value_type) as [q|e]; [|done].
    intros [= <-]. apply Hobj.
Qed.

End schema_facts.

Section schema_theorems.

Variable set_order : list value -> list value.

(** ** Optional *)

(** An [Optional] spelled with the [typing] module: when the arguments of
    a [Union] contain [type(None)] and exactly one other member [T], and
    parsing [T] yields a dict [d] with a [type] key, parsing the [Union]
    yields [d] with [nullable] set to [True]. *)
Theorem parse_type_optional (args : list annotation) (T : annotation) (d : dict) :
  existsb is_NoneType args = true ->
  List.filter (fun arg => negb (is_NoneType arg)) args = [T] ->
  parse_type set_order T = Ok (VDict d) ->
  is_Some (dict_get "type" d) ->
  parse_type set_order (Union args)
  = Ok (VDict (dict_set "nullable" (VBool true) d)).
Proof.
  intros Hnone Hone HT [t Ht].
  rewrite parse_type_Union. unfold union_schema.
  rewrite (existsb_paired is_NoneType), Hnone.
  rewrite (filter_paired (fun arg => negb (is_NoneType arg))), Hone.
  simpl. by rewrite HT, Ht.
Qed.

(** The condition on the fragment always holds: [Optional[T]] is
    parsed to the fragment of [T] with [nullable] set, whenever parsing
    [T] does not raise. *)
Lemma parse_type_optional_any (T : annotation) (p : value) :
  is_NoneType T = false ->
  parse_type set_order T = Ok p ->
  exists d, p = VDict d /\
            parse_type set_order (Union [T; TNoneType])
            = Ok (VDict (dict_set "nullable" (VBool true) d)).
Proof.
  intros HT Hp.
  destruct (parse_type_fragment set_order T p Hp) as (d & -> & [t Ht] & _).
  exists d. split; [done|].
  rewrite parse_type_Union. unfold union_schema. simpl.
  rewrite HT, orb_true_r. simpl. by rewrite Hp, Ht.
Qed.

(** ** The fallback *)

(** The table, entry by entry. *)
Lemma parse_type_table :
  parse_type set_order Tstr = Ok (VDict [("type", VStr "string")]) /\
  parse_type set_order Tint = Ok (VDict [("type", VStr "integer")]) /\
  parse_type set_order Tfloat = Ok (VDict [("type", VStr "number")]) /\
  parse_type set_order Tbool = Ok (VDict [("type", VStr "boolean")]) /\
  parse_type set_order Tlist = Ok (VDict [("type", VStr "array")]) /\
  parse_type set_order Tdict = Ok (VDict [("type", VStr "object")]) /\
  parse_type set_order TNoneType = Ok (VDict [("type", VStr "null")]).
Proof. by split_and!. Qed.

(** An object outside the table that can be hashed falls back to
    ["string"]. *)
Lemma parse_type_unmapped (name : string) :
  parse_type set_order (Other name true) = Ok (VDict [("type", VStr "string")]).
Proof. reflexivity. Qed.

(** An object that cannot be hashed makes [type_map.get] raise. *)
Lemma parse_type_unhashable (name : string) :
  parse_type set_order (Other name false) = Raise TypeError.
Proof. reflexivity. Qed.

(** A parameter without annotation gets [{"type": "string"}]. *)
Lemma build_parameters_unannotated (name : string) (default : option value) :
  build_parameters set_order
    [{| param_name := name; param_annotation := None; param_default := default |}] []
  = Ok [(name, VDict [("type", VStr "string")])].
Proof. reflexivity. Qed.

(** C9 at the failing input: for [def f(x: Annotated[int, []])], whose
    annotation is outside the table and cannot be hashed,
    [function_to_json] raises [TypeError] instead of describing [x] as a
    ["string"]. *)
Theorem function_to_json_unhashable_annotation :
  function_to_json set_order
    {| fn_name := Some "f";
       fn_doc := None;
       fn_signature :=
         Some [{| param_name := "x";
                  param_annotation := Some (Other "Annotated[int, []]" false);
                  param_default := None |}] |}
  = Raise TypeError.
Proof. reflexivity. Qed.

End schema_theorems.

(** * The admissible order used in the examples *)

Lemma existsb_eqb_elem (s : string) (seen : list string) :
  existsb (String.eqb s) seen = true <-> s ∈ seen.
Proof.
  induction seen as [|x seen IH]; simpl.
  - split; [done|]. intros H. by apply elem_of_nil in H.
  - rewrite orb_true_iff, elem_of_cons, IH, String.eqb_eq. done.
Qed.

Lemma first_occurrences_strings (names : list string) : forall (seen : list string),
  NoDup (first_occurrences seen (map VStr names)) /\
  forall v, v ∈ first_occurrences seen (map VStr names) <->
            exists s, v = VStr s /\ s ∈ names /\ s ∉ seen.
Proof.
  induction names as [|s names IH]; intros seen; simpl.
  - split; [apply NoDup_nil_2|]. intros v. split.
    + intros H. by apply elem_of_nil in H.
    + intros (s & _ & H & _). by apply elem_of_nil in H.
  - destruct (existsb (String.eqb s) seen) eqn:E.
    + apply existsb_eqb_elem in E. destruct (IH seen) as [Hnd Hin].
      split; [done|]. intros v. rewrite Hin. split.
      * intros (s' & -> & Hs' & Hseen). exists s'. split_and!; [done| |done].
        apply elem_of_cons. by right.
      * intros (s' & -> & Hs' & Hseen). exists s'. split_and!; [done| |done].
        apply elem_of_cons in Hs' as [->|Hs']; done.
    + assert (Hs : s ∉ seen).
      { intros H. apply existsb_eqb_elem in H. congruence. }
      destruct (IH (s :: seen)) as [Hnd Hin]. split.
      * apply NoDup_cons_2; [|done]. rewrite Hin.
        intros (s' & [= <-] & _ & Hseen). apply Hseen, elem_of_cons. by left.
      * intros v. rewrite elem_of_cons, Hin. split.
        -- intros [->|(s' & -> & Hs' & Hseen)].
           ++ exists s. split_and!; [done| |done]. apply elem_of_cons. by left.
           ++ exists s'. split_and!; [done| |].
              ** apply elem_of_cons. by right.
              ** intros H. apply Hseen, elem_of_cons. by right.
        -- intros (s' & -> & Hs' & Hseen).
           destruct (decide (s' = s)) as [->|Hne]; [by left|]. right.
           exists s'. split_and!; [done| |].
           ++ apply elem_of_cons in Hs' as [?|?]; done.
           ++ intros H. apply elem_of_cons in H as [?|?]; done.
Qed.

Lemma insertion_order_strings (names : list string) :
  NoDup (insertion_order (map VStr names)) /\
  forall v, v ∈ insertion_order (map VStr names) <-> v ∈ map VStr names.
Proof.
  destruct (first_occurrences_strings names []) as [Hnd Hin].
  split; [done|]. intros v. unfold insertion_order. rewrite Hin. split.
  - intros (s & -> & Hs & _). by apply (list_elem_of_fmap_2 VStr).
  - intros H. apply list_elem_of_fmap in H as (s & -> & Hs).
    exists s. split_and!; [done|done|]. apply not_elem_of_nil.
Qed.

(** * Union of several members *)

Lemma forallb_hashable_strings (names : list string) :
  forallb hashable (map VStr names) = true.
Proof. induction names as [|s names IH]; simpl; done. Qed.

Lemma parsed_elem_of {A : Type} (f : A -> result value) (args : list A) :
  forall (parsed : list value) (p : value),
  map f args = map Ok parsed -> p ∈ parsed -> exists a, a ∈ args /\ f a = Ok p.
Proof.
  induction args as [|a args IH]; intros [|q parsed] p; simpl; try done.
  - intros _ H. by apply elem_of_nil in H.
  - intros [= Ha Hrest] H. apply elem_of_cons in H as [->|H].
    + exists a. split; [|done]. apply elem_of_cons. by left.
    + destruct (IH _ _ Hrest H) as (a' & Ha' & Hp).
      exists a'. split; [|done]. apply elem_of_cons. by right.
Qed.

Section union_of_members.

Variable set_order : list value -> list value.

(** What is known of the order of [list(set(types))] for a list of
    strings: each string once, no other element. *)
Hypothesis set_order_strings : forall names : list string,
  NoDup (set_order (map VStr names)) /\
  forall v, v ∈ set_order (map VStr names) <-> v ∈ map VStr names.

(** C4, as the code has it: for a [Union] with more than one member other
    than [type(None)], whose members parse to the fragments [parsed] with
    the type names [names], [parse_type] returns a fragment whose [type]
    lists each of these names once and nothing else, and whose [items],
    when some member is an array with [items], is the [items] of the last
    such member in argument order; without such a member there is no
    [items] key. *)
Theorem parse_type_union_members
    (args : list annotation) (parsed : list value) (names : list string) :
  (1 < length (List.filter (fun arg => negb (is_NoneType arg)) args))%nat ->
  map (parse_type set_order) args = map Ok parsed ->
  map type_of_parsed parsed = map VStr names ->
  exists types,
    parse_type set_order (Union args)
    = Ok (VDict (("type", VList types)
                 :: match last_items parsed with
                    | Some it => [("items", it)]
                    | None => []
                    end)) /\
    NoDup types /\
    forall v, v ∈ types <-> exists name, v = VStr name /\ name ∈ names.
Proof.
  intros Hlen Hparsed Hnames.
  exists (set_order (map VStr names)).
  destruct (set_order_strings names) as [Hnd Hin]. split_and!; [|done|].
  - rewrite parse_type_Union.
    assert (Hgen : union_schema set_order
                     (map (fun arg => (arg, parse_type set_order arg)) args)
                   = union_general set_order (map (parse_type set_order) args)).
    { unfold union_schema.
      rewrite (filter_paired (fun arg => negb (is_NoneType arg))), snd_paired.
      destruct (List.filter _ args) as [|a [|b rest]]; simpl in Hlen; try lia.
      simpl. by destruct (existsb _ _). }
    rewrite Hgen, Hparsed. unfold union_general.
    rewrite union_loop_ok. simpl app. rewrite Hnames, forallb_hashable_strings.
    destruct (last_items parsed) as [it|] eqn:Hlast; simpl default; [|done].
    destruct (last_items_elem _ _ Hlast) as (p & Hp & Hit).
    destruct (parsed_elem_of _ _ _ _ Hparsed Hp) as (a & _ & Ha).
    destruct (parse_type_fragment _ _ _ Ha) as (_ & _ & _ & Htruthy).
    by rewrite (Htruthy _ Hit).
  - intros v. rewrite Hin. split.
    + intros H. apply list_elem_of_fmap in H as (s & -> & Hs). by exists s.
    + intros (s & -> & Hs). by apply (list_elem_of_fmap_2 VStr).
Qed.

(** A member that is not itself a [Union] (the [typing] module flattens
    nested unions) has a string for its type name. *)
Lemma parse_type_name_string (a : annotation) (p : value) :
  is_Union a = false -> parse_type set_order a = Ok p ->
  exists name, type_of_parsed p = VStr name.
Proof.
  intros Hu. destruct a as [| | | | | | |name h|args|args|args]; simpl; try done;
    try (intros [= <-]; by eexists).
  - destruct h; [|done]. intros [= <-]. by eexists.
  - destruct args as [|arg args]; [intros [= <-]; by eexists|].
    destruct (parse_type set_order arg); [|done]. intros [= <-]. by eexists.
  - destruct args as [|k [|vt [|? ?]]]; try (intros [= <-]; by eexists).
    destruct (parse_type set_order vt); [|done]. intros [= <-]. by eexists.
Qed.

End union_of_members.

(** * Annotations that never raise *)

Section parse_type_total.

Variable set_order : list value -> list value.

Lemma union_general_ok (parsed : list value) (names : list string) :
  map type_of_parsed parsed = map VStr names ->
  exists p, union_general set_order (map Ok parsed) = Ok p.
Proof.
  intros Hnames. unfold union_general. rewrite union_loop_ok. simpl app.
  rewrite Hnames, forallb_hashable_strings. by eexists.
Qed.

Lemma union_schema_ok (args : list (annotation * result value)) (parsed : list value) :
  map snd args = map Ok parsed ->
  (exists p, union_general set_order (map Ok parsed) = Ok p) ->
  exists p, union_schema set_order args = Ok p.
Proof.
  intros Hparsed Hgen. unfold union_schema. rewrite Hparsed.
  destruct (existsb _ args); [|done].
  destruct (List.filter _ args) as [|[T r] [|? ?]] eqn:Hf; try done.
  assert (Hr : exists p, r = Ok p).
  { assert (HT : (T, r) ∈ args).
    { apply (filter_elem (fun a => negb (is_NoneType (fst a)))). rewrite Hf.
      apply elem_of_cons. by left. }
    apply (list_elem_of_fmap_2 snd) in HT. simpl in HT.
    change (r ∈ map snd args) in HT. rewrite Hparsed in HT.
    apply list_elem_of_fmap in HT as (p & -> & _). by exists p. }
  destruct Hr as [p ->]. destruct p as [| | | | | |d]; try done.
  destruct (dict_get "type" d); [by eexists|done].
Qed.

(** On such annotations [parse_type] returns a fragment. *)
Lemma parse_type_total (a : annotation) :
  typing_normal a = true -> exists p, parse_type set_order a = Ok p.
Proof.
  induction a as [a Hu Hl Hd|args IH|args IH|args IH] using annotation_ind.
  - destruct a as [| | | | | | |name h|args|args|args]; simpl;
      try (by (exfalso; first [by eapply Hu | by eapply Hl | by eapply Hd]));
      try (intros _; by eexists).
    intros ->. by eexists.
  - intros Hnormal. simpl in Hnormal. rewrite parse_type_Union.
    assert (Hmembers : exists parsed names,
              map (parse_type set_order) args = map Ok parsed /\
              map type_of_parsed parsed = map VStr names).
    { induction args as [|arg args IHargs]; [by exists [], []|].
      simpl in Hnormal. apply andb_true_iff in Hnormal as [Harg Hrest].
      apply andb_true_iff in Harg as [Hflat Harg]. apply negb_true_iff in Hflat.
      apply Forall_cons in IH as [IHarg IHrest].
      destruct (IHarg Harg) as [p Hp].
      destruct (parse_type_name_string set_order arg p Hflat Hp) as [name Hname].
      destruct (IHargs IHrest Hrest) as (parsed & names & Hparsed & Hnames).
      exists (p :: parsed), (name :: names). simpl.
      by rewrite Hp, Hparsed, Hname, Hnames. }
    destruct Hmembers as (parsed & names & Hparsed & Hnames).
    apply union_schema_ok with (parsed := parsed).
    + by rewrite snd_paired.
    + by eapply union_general_ok.
  - destruct args as [|arg args]; simpl; [intros _; by eexists|].
    intros Hnormal. apply andb_true_iff in Hnormal as [Harg _].
    apply Forall_cons in IH as [IHarg _].
    destruct (IHarg Harg) as [p ->]. by eexists.
  - destruct args as [|k [|value_type [|? ?]]]; simpl; try (intros _; by eexists).
    intros Hnormal. apply andb_true_iff in Hnormal as [_ Hnormal].
    apply andb_true_iff in Hnormal as [Hvalue _].
    apply Forall_cons in IH as [_ IH]. apply Forall_cons in IH as [IHvalue _].
    destruct (IHvalue Hvalue) as [p ->]. by eexists.
Qed.

(** X20: a callable with a name, a signature that can be reflected and such
    annotations gets a descriptor. *)
Lemma function_to_json_total (func : callable) (params : list parameter) :
  is_Some (fn_name func) ->
  fn_signature func = Some params ->
  (forall param ann, param ∈ params -> param_annotation param = Some ann ->
                     typing_normal ann = true) ->
  exists descriptor, function_to_json set_order func = Ok descriptor.
Proof.
  intros [name Hname] Hsig Hnormal. unfold function_to_json. rewrite Hsig, Hname.
  assert (Hbuild : forall parameters,
            exists properties,
              build_parameters set_order params parameters = Ok properties).
  { clear Hsig. induction params as [|param params IH]; intros parameters; simpl.
    - by eexists.
    - assert (Hrest : forall p ann, p ∈ params -> param_annotation p = Some ann ->
                        typing_normal ann = true).
      { intros p ann Hp. apply Hnormal, elem_of_cons. by right. }
      destruct (param_annotation param) as [ann|] eqn:Hann; [|by apply IH].
      destruct (parse_type_total ann) as [fragment ->]; [|by apply IH].
      apply (Hnormal param); [apply elem_of_cons; by left|done]. }
  destruct (Hbuild []) as [properties ->]. by eexists.
Qed.

End parse_type_total.

Lemma parse_type_union_members_witness :
  exists types,
    parse_type insertion_order (Union [Tint; ListOf [Tint]; Tint; ListOf [Tstr]; TNoneType])
    = Ok (VDict [("type", VList types); ("items", VDict [("type", VStr "string")])]) /\
    NoDup types /\
    forall v, v ∈ types <->
              exists name, v = VStr name /\
                           name ∈ ["integer"; "array"; "integer"; "array"; "null"].
Proof.
  refine (parse_type_union_members insertion_order insertion_order_strings
            [Tint; ListOf [Tint]; Tint; ListOf [Tstr]; TNoneType]
            [VDict [("type", VStr "integer")];
             VDict [("type", VStr "array"); ("items", VDict [("type", VStr "integer")])];
             VDict [("type", VStr "integer")];
             VDict [("type", VStr "array"); ("items", VDict [("type", VStr "string")])];
             VDict [("type", VStr "null")]]
            ["integer"; "array"; "integer"; "array"; "null"] _ _ _).
  - simpl. lia.
  - reflexivity.
  - reflexivity.
Defined.

(** C4 as stated fails on which [items] is kept: in
    [Union[List[int], List[str]]] the first member that is an array with
    [items] has [{"type": "integer"}], and the fragment of the union carries
    [{"type": "string"}], the [items] of the second. *)
Lemma parse_type_union_keeps_last_items :
  parse_type insertion_order (Union [ListOf [Tint]; ListOf [Tstr]])
  = Ok (VDict [("type", VList [VStr "array"]);
               ("items", VDict [("type", VStr "string")])]) /\
  first_items
    [VDict [("type", VStr "array"); ("items", VDict [("type", VStr "integer")])];
     VDict [("type", VStr "array"); ("items", VDict [("type", VStr "string")])]]
  = Some (VDict [("type", VStr "integer")]) /\
  parse_type insertion_order (ListOf [Tint])
  = Ok (VDict [("type", VStr "array"); ("items", VDict [("type", VStr "integer")])]) /\
  VDict [("type", VStr "string")] <> VDict [("type", VStr "integer")].
Proof. split_and!; [reflexivity | reflexivity | reflexivity | discriminate]. Qed.

(** * The descriptor: properties and required *)

Lemma dict_keys_set_new (k : string) (v : value) (d : dict) :
  dict_get k d = None -> dict_keys (dict_set k v d) = (dict_keys d ++ [k])%list.
Proof.
  induction d as [|[k' v'] d IH]; simpl; [done|].
  destruct (String.eqb k k'); [done|]. intros H. simpl. f_equal. auto.
Qed.

Lemma required_names_elem (params : list parameter) (name : string) :
  name ∈ required_names params <->
  exists param, param ∈ params /\ param_name param = name /\ param_default param = None.
Proof.
  unfold required_names. rewrite list_elem_of_fmap. split.
  - intros (param & -> & H). apply list_elem_of_In, filter_In in H as [H Hd].
    exists param. split_and!; [by apply list_elem_of_In|done|].
    by destruct (param_default param).
  - intros (param & H & <- & Hd). exists param. split; [done|].
    apply list_elem_of_In, filter_In. split; [by apply list_elem_of_In|].
    by rewrite Hd.
Qed.

Lemma required_names_sublist (params : list parameter) :
  sublist (required_names params) (map param_name params).
Proof.
  unfold required_names. induction params as [|param params IH]; simpl.
  - apply sublist_nil.
  - destruct (param_default param); simpl.
    + by apply sublist_cons.
    + by apply sublist_skip.
Qed.

Lemma param_name_unique (params : list parameter) (p q : parameter) :
  NoDup (map param_name params) -> p ∈ params -> q ∈ params ->
  param_name p = param_name q -> p = q.
Proof.
  induction params as [|x params IH]; simpl.
  - intros _ H. by apply elem_of_nil in H.
  - rewrite NoDup_cons, !elem_of_cons. intros [Hx Hnd] [->|Hp] [->|Hq] Heq; auto.
    + exfalso. apply Hx. rewrite Heq. by apply (list_elem_of_fmap_2 param_name).
    + exfalso. apply Hx. rewrite <- Heq. by apply (list_elem_of_fmap_2 param_name).
Qed.

Section descriptor.

Variable set_order : list value -> list value.

Lemma build_parameters_keys (params : list parameter) :
  forall (parameters properties : dict),
  build_parameters set_order params parameters = Ok properties ->
  NoDup (dict_keys parameters ++ map param_name params) ->
  dict_keys properties = (dict_keys parameters ++ map param_name params)%list.
Proof.
  induction params as [|param params IH]; intros parameters properties; simpl.
  - intros [= <-] _. by rewrite app_nil_r.
  - destruct (match param_annotation param with
              | Some ann => parse_type set_order ann
              | None => Ok (VDict [("type", VStr "string")])
              end) as [param_type|e]; [|done].
    intros H Hnd.
    assert (Hfresh : dict_get (param_name param) parameters = None).
    { apply dict_get_None. apply NoDup_app in Hnd as (_ & Hdisj & _).
      intros Hin. apply (Hdisj _ Hin), elem_of_cons. by left. }
    rewrite (IH _ _ H); rewrite (dict_keys_set_new _ _ _ Hfresh).
    + by rewrite <- app_assoc.
    + by rewrite <- app_assoc.
Qed.

Lemma build_parameters_total (params : list parameter) :
  forall (parameters : dict),
  (forall param ann, param ∈ params -> param_annotation param = Some ann ->
                     exists fragment, parse_type set_order ann = Ok fragment) ->
  exists properties, build_parameters set_order params parameters = Ok properties.
Proof.
  induction params as [|param params IH]; intros parameters Hparse; simpl.
  - by eexists.
  - assert (Hrest : forall p ann, p ∈ params -> param_annotation p = Some ann ->
                      exists fragment, parse_type set_order ann = Ok fragment).
    { intros p ann Hp. apply Hparse, elem_of_cons. by right. }
    destruct (param_annotation param) as [ann|] eqn:Hann.
    + destruct (Hparse param ann) as [fragment ->]; [apply elem_of_cons; by left|done|].
      by apply IH.
    + by apply IH.
Qed.

(** C7: for a callable whose signature can be reflected (parameter names
    are distinct), the descriptor that [function_to_json] returns has as
    [properties] a dict with exactly the parameter names as keys, in
    declaration order, and as [required] the names, in declaration order,
    of the parameters without a default: a parameter is listed there if
    and only if it has no default, whatever its annotation, and every
    listed name is a key of [properties].  The descriptor is returned
    whenever the callable has a name and every annotation can be parsed. *)
Theorem function_to_json_required (func : callable) (params : list parameter) :
  fn_signature func = Some params ->
  NoDup (map param_name params) ->
  (is_Some (fn_name func) ->
   (forall param ann, param ∈ params -> param_annotation param = Some ann ->
                      exists fragment, parse_type set_order ann = Ok fragment) ->
   exists descriptor, function_to_json set_order func = Ok descriptor) /\
  forall descriptor, function_to_json set_order func = Ok descriptor ->
    exists (properties : dict) (required : list string),
      lookup_path [Key "function"; Key "parameters"; Key "properties"] descriptor
      = Some (VDict properties) /\
      lookup_path [Key "function"; Key "parameters"; Key "required"] descriptor
      = Some (VList (map VStr required)) /\
      dict_keys properties = map param_name params /\
      (forall param, param ∈ params ->
                     (param_name param ∈ required <-> param_default param = None)) /\
      sublist required (map param_name params) /\
      (forall name, name ∈ required -> name ∈ dict_keys properties).
Proof.
  intros Hsig Hnd. unfold function_to_json. rewrite Hsig. split.
  - intros [name ->] Hparse.
    destruct (build_parameters_total params [] Hparse) as [properties ->].
    by eexists.
  - intros descriptor.
    destruct (build_parameters set_order params []) as [properties|e] eqn:Hbuild; [|done].
    destruct (fn_name func) as [name|]; [|done].
    intros [= <-]. exists properties, (required_names params).
    pose proof (build_parameters_keys _ _ _ Hbuild Hnd) as Hkeys. simpl in Hkeys.
    split_and!; [done|done|done| | |].
    + intros param Hparam. rewrite required_names_elem. split.
      * intros (q & Hq & Hname & Hdefault).
        by rewrite <- (param_name_unique params q param Hnd Hq Hparam Hname).
      * intros Hdefault. by exists param.
    + apply required_names_sublist.
    + intros n Hn. rewrite Hkeys.
      apply required_names_elem in Hn as (param & Hparam & <- & _).
      by apply (list_elem_of_fmap_2 param_name).
Qed.

End descriptor.

Example function_to_json_example :
  function_to_json insertion_order example_callable = Ok example_descriptor.
Proof. reflexivity. Qed.

Lemma function_to_json_required_witness :
  (exists descriptor, function_to_json insertion_order example_callable = Ok descriptor) /\
  exists (properties : dict) (required : list string),
    lookup_path [Key "function"; Key "parameters"; Key "properties"] example_descriptor
    = Some (VDict properties) /\
    lookup_path [Key "function"; Key "parameters"; Key "required"] example_descriptor
    = Some (VList (map VStr required)) /\
    dict_keys properties = ["key"; "limit"; "tags"] /\
    (forall param, param ∈ example_params ->
                   (param_name param ∈ required <-> param_default param = None)) /\
    sublist required ["key"; "limit"; "tags"] /\
    (forall name, name ∈ required -> name ∈ dict_keys properties).
Proof.
  assert (Hnames : NoDup (map param_name example_params))
    by (apply NoDup_check; reflexivity).
  destruct (function_to_json_required insertion_order example_callable
              example_params eq_refl Hnames) as [Htotal Hdescriptor].
  split.
  - apply Htotal; [by eexists|]. intros param ann Hparam Hann.
    destruct (parse_type insertion_order ann) as [fragment|e] eqn:Hparse; [by eexists|].
    exfalso. unfold example_params in Hparam. rewrite !elem_of_cons in Hparam.
    destruct Hparam as [->|[->|[->|Hnil]]]; simpl in Hann;
      [injection Hann as <-; discriminate Hparse ..|by apply elem_of_nil in Hnil].
  - exact (Hdescriptor example_descriptor eq_refl).
Defined.

Lemma parse_type_optional_witness :
  parse_type insertion_order (Union [ListOf [Tint]; TNoneType])
  = Ok (VDict [("type", VStr "array");
               ("items", VDict [("type", VStr "integer")]);
               ("nullable", VBool true)]).
Proof.
  refine (parse_type_optional insertion_order
            [ListOf [Tint]; TNoneType] (ListOf [Tint])
            [("type", VStr "array"); ("items", VDict [("type", VStr "integer")])]
            _ _ _ _).
  - reflexivity.
  - reflexivity.
  - reflexivity.
  - eexists. reflexivity.
Defined.

(** * Further properties of merge_fields *)

Lemma append_assoc (a b c : string) : (a +:+ b) +:+ c = a +:+ (b +:+ c).
Proof.
  induction a as [|x a IH]; [reflexivity|].
  change (String x ((a +:+ b) +:+ c) = String x (a +:+ (b +:+ c))). by rewrite IH.
Qed.

Lemma dict_set_set (k : string) (v1 v2 : value) (d : dict) :
  dict_set k v2 (dict_set k v1 d) = dict_set k v2 d.
Proof.
  induction d as [|[k' v'] d IH]; simpl.
  - by rewrite String.eqb_refl.
  - destruct (String.eqb k k') eqn:E; simpl; rewrite E; [done|]. by rewrite IH.
Qed.

Lemma dict_del_absent (k : string) (d : dict) :
  k ∉ dict_keys d -> dict_del k d = d.
Proof.
  induction d as [|[k' v'] d IH]; simpl; [done|].
  rewrite not_elem_of_cons. intros [Hne Hd].
  apply String.eqb_neq in Hne. rewrite Hne. by rewrite IH.
Qed.

(** X1: fields that are neither strings nor dicts ([None], numbers, booleans,
    lists) play no part: merging a delta is merging the delta without
    them, for the accumulator and for the outcome. *)
Theorem merge_fields_ignores_other_fields (target : value) (source : dict) :
  merge_fields target source
  = merge_fields target (List.filter (fun kv => merges (snd kv)) source).
Proof.
  revert target. induction source as [|[key val] source IH]; intros target; [done|].
  simpl. destruct (merges val) eqn:Hm.
  - rewrite !merge_fields_cons.
    destruct (merge_field (merge_source val) target key val) as [t1 [|e]]; auto.
  - rewrite merge_fields_cons, merge_field_skip by done. apply IH.
Qed.

(** X2: a dict field of the delta is merged, by the same rules, into the value
    under its key: after a merge that completes, that value is what
    merging the sub-dict into the old value gives, and that inner merge
    completed. *)
Theorem merge_fields_nested_dict
    (target source sub : dict) (k : string) (cur target' : value) :
  NoDup (dict_keys source) ->
  (k, VDict sub) ∈ source ->
  dict_get k target = Some cur ->
  merge_fields (VDict target) source = (target', Done) ->
  snd (merge_fields cur sub) = Done /\
  field k target' = Some (fst (merge_fields cur sub)).
Proof.
  intros Hnd Hin Hcur H.
  destruct (merge_fields_field _ _ _ _ _ _ Hnd Hin H) as [Hpresent _].
  exact (Hpresent _ Hcur eq_refl).
Qed.

Lemma merge_fields_nested_dict_witness :
  snd (merge_fields (VDict [("arguments", VStr "ar"); ("name", VStr "g")])
         [("arguments", VStr "go")]) = Done /\
  field "function"
    (fst (merge_fields
            (VDict [("function", VDict [("arguments", VStr "ar"); ("name", VStr "g")]);
                    ("id", VStr "b")])
            [("id", VStr "1"); ("function", VDict [("arguments", VStr "go")])]))
  = Some (fst (merge_fields (VDict [("arguments", VStr "ar"); ("name", VStr "g")])
                 [("arguments", VStr "go")])).
Proof.
  refine (merge_fields_nested_dict
            [("function", VDict [("arguments", VStr "ar"); ("name", VStr "g")]);
             ("id", VStr "b")]
            [("id", VStr "1"); ("function", VDict [("arguments", VStr "go")])]
            [("arguments", VStr "go")] "function"
            (VDict [("arguments", VStr "ar"); ("name", VStr "g")]) _ _ _ _ _).
  - apply NoDup_check. reflexivity.
  - apply elem_of_cons. right. apply elem_of_cons. left. reflexivity.
  - reflexivity.
  - reflexivity.
Defined.

(** X3: the keys of the accumulator and their order are as before, whatever
    the outcome, and a key the delta does not name keeps its value. *)
Theorem merge_fields_frame (target source : dict) (target' : value) (r : outcome) :
  merge_fields (VDict target) source = (target', r) ->
  exists d', target' = VDict d' /\ dict_keys d' = dict_keys target /\
             forall k, k ∉ dict_keys source -> dict_get k d' = dict_get k target.
Proof.
  intros H. destruct (merge_fields_dict _ _ _ _ H) as (d' & -> & Hkeys & Hsame).
  exists d'. split_and!; [done|done|].
  intros k Hk. apply Hsame. intros v Hv. exfalso. apply Hk.
  by apply (list_elem_of_fmap_2 fst) in Hv.
Qed.

Lemma merge_fields_frame_witness :
  exists d', fst (merge_fields (VDict [("content", VStr "H"); ("id", VStr "a")])
                    [("content", VStr "i"); ("name", VStr "x")]) = VDict d' /\
             dict_keys d' = ["content"; "id"] /\
             forall k, k ∉ ["content"; "name"] ->
                       dict_get k d' = dict_get k [("content", VStr "H"); ("id", VStr "a")].
Proof.
  refine (merge_fields_frame
            [("content", VStr "H"); ("id", VStr "a")]
            [("content", VStr "i"); ("name", VStr "x")]
            _ (Raised KeyError) _).
  reflexivity.
Defined.

(** X4: a target that is not a dict (a slot holding [None], a string, a list)
    is never changed by a merge: the merge completes when the delta has no
    string or dict field, and raises [TypeError] otherwise. *)
Theorem merge_fields_into_non_dict
    (target : value) (source : dict) (target' : value) (r : outcome) :
  (forall d, target <> VDict d) ->
  merge_fields target source = (target', r) ->
  target' = target /\
  (r = Done \/ r = Raised TypeError) /\
  (r = Done <-> forall kv, kv ∈ source -> merges (snd kv) = false).
Proof.
  intros Ht. rewrite merge_fields_not_dict by done.
  destruct (existsb (fun kv => merges (snd kv)) source) eqn:E; intros [= <- <-].
  - split_and!; [done|by right|]. split; [done|].
    intros Hall. apply existsb_exists in E as (kv & Hkv & Hm).
    apply list_elem_of_In in Hkv. rewrite (Hall kv Hkv) in Hm. done.
  - split_and!; [done|by left|]. split; [|done].
    intros _ kv Hkv. apply list_elem_of_In in Hkv.
    destruct (merges (snd kv)) eqn:Hm; [|done].
    assert (existsb (fun kv => merges (snd kv)) source = true)
      by (apply existsb_exists; by exists kv).
    congruence.
Qed.

Lemma merge_fields_into_non_dict_witness :
  fst (merge_fields VNone [("id", VStr "a")]) = VNone /\
  (snd (merge_fields VNone [("id", VStr "a")]) = Done \/
   snd (merge_fields VNone [("id", VStr "a")]) = Raised TypeError) /\
  (snd (merge_fields VNone [("id", VStr "a")]) = Done <->
   forall kv, kv ∈ [("id", VStr "a")] -> merges (snd kv) = false).
Proof.
  refine (merge_fields_into_non_dict VNone [("id", VStr "a")] _ _ _ _).
  - discriminate.
  - reflexivity.
Defined.

Lemma merge_field_raises (recurse : value -> value * outcome)
    (target : value) (key : string) (val t' : value) (e : exn) :
  (forall cur cur' e', recurse cur = (cur', Raised e') -> e' = KeyError \/ e' = TypeError) ->
  merge_field recurse target key val = (t', Raised e) ->
  e = KeyError \/ e = TypeError.
Proof.
  intros Hrec. unfold merge_field.
  destruct val, target; try (intros [= _ <-]; auto); try done.
  - destruct (dict_get key fields) as [cur|]; [|intros [= _ <-]; auto].
    destruct cur; simpl; try (intros [= _ <-]; auto); done.
  - destruct (dict_get key fields0) as [cur|]; [|intros [= _ <-]; auto].
    destruct (recurse cur) as [cur' r'] eqn:Hr. intros [= _ ->]. by eapply Hrec.
Qed.

Lemma merge_source_raises (source : value) : forall (target t' : value) (e : exn),
  merge_source source target = (t', Raised e) -> e = KeyError \/ e = TypeError.
Proof.
  induction source as [| | | | | |fields IH] using value_ind; try done.
  change (forall target t' e, merge_fields target fields = (t', Raised e) ->
                              e = KeyError \/ e = TypeError).
  induction fields as [|[key val] rest IHrest]; intros target t' e; [done|].
  apply Forall_cons in IH as [Hval Hrest]. simpl in Hval.
  rewrite merge_fields_cons.
  destruct (merge_field (merge_source val) target key val) as [t1 r1] eqn:Hstep.
  destruct r1 as [|e1].
  - by apply IHrest.
  - intros [= _ <-]. by eapply merge_field_raises.
Qed.

(** X5: whatever the accumulator and the delta, [merge_fields] raises nothing
    but [KeyError] (a key of the delta missing in the accumulator) and
    [TypeError] (a value that cannot take the field). *)
Theorem merge_fields_raises_key_or_type
    (target : value) (source : dict) (target' : value) (e : exn) :
  merge_fields target source = (target', Raised e) ->
  e = KeyError \/ e = TypeError.
Proof. apply (merge_source_raises (VDict source)). Qed.

Lemma merge_fields_raises_key_or_type_witness :
  TypeError = KeyError \/ TypeError = TypeError.
Proof.
  refine (merge_fields_raises_key_or_type
            (VDict [("content", VInt 3)]) [("content", VStr "x")]
            (VDict [("content", VInt 3)]) TypeError _).
  reflexivity.
Defined.

(** * Further properties of merge_chunk *)

Lemma merge_chunk_single_string (acc : dict) (k a old : string) :
  k <> "role" -> k <> "tool_calls" ->
  dict_get k acc = Some (VStr old) ->
  merge_chunk acc [(k, VStr a)]
  = (VDict (dict_set k (VStr (old +:+ a)) acc), [(k, VStr a)], Done).
Proof.
  intros Hrole Htool Hold. unfold merge_chunk. cbn [dict_del].
  replace (String.eqb "role" k) with false
    by (symmetry; apply String.eqb_neq; congruence).
  rewrite (merge_fields_single_string _ _ _ _ Hold). cbn [dict_get].
  replace (String.eqb "tool_calls" k) with false
    by (symmetry; apply String.eqb_neq; congruence).
  done.
Qed.

(** X8: streaming a string in two pieces is the same as merging it whole: two
    calls with [a] and then [b] under a key leave the accumulator that one
    call with [a] followed by [b] leaves. *)
Theorem merge_chunk_streams_strings (acc : dict) (k a b old : string) :
  k <> "role" -> k <> "tool_calls" ->
  dict_get k acc = Some (VStr old) ->
  exists acc1,
    merge_chunk acc [(k, VStr a)] = (VDict acc1, [(k, VStr a)], Done) /\
    fst (fst (merge_chunk acc1 [(k, VStr b)]))
    = fst (fst (merge_chunk acc [(k, VStr (a +:+ b))])) /\
    snd (merge_chunk acc1 [(k, VStr b)]) = Done /\
    fst (fst (merge_chunk acc [(k, VStr (a +:+ b))]))
    = VDict (dict_set k (VStr (old +:+ a +:+ b)) acc).
Proof.
  intros Hrole Htool Hold.
  exists (dict_set k (VStr (old +:+ a)) acc).
  rewrite (merge_chunk_single_string acc k a old) by done.
  rewrite (merge_chunk_single_string acc k (a +:+ b) old) by done.
  rewrite (merge_chunk_single_string _ k b (old +:+ a)) by (by rewrite ?dict_get_set_eq).
  cbn [fst snd]. by rewrite dict_set_set, append_assoc.
Qed.

Lemma merge_chunk_streams_strings_witness :
  exists acc1,
    merge_chunk [("content", VStr "H")] [("content", VStr "el")]
    = (VDict acc1, [("content", VStr "el")], Done) /\
    fst (fst (merge_chunk acc1 [("content", VStr "lo")]))
    = fst (fst (merge_chunk [("content", VStr "H")] [("content", VStr "ello")])) /\
    snd (merge_chunk acc1 [("content", VStr "lo")]) = Done /\
    fst (fst (merge_chunk [("content", VStr "H")] [("content", VStr "ello")]))
    = VDict [("content", VStr "Hello")].
Proof.
  refine (merge_chunk_streams_strings [("content", VStr "H")] "content" "el" "lo" "H" _ _ _).
  - discriminate.
  - discriminate.
  - reflexivity.
Defined.

(** X9: the role of the accumulator is out of reach: whatever the delta holds,
    its [role] included, and however the call ends, the accumulator has
    under [role] what it had (or still has no such key). *)
Theorem merge_chunk_keeps_role
    (acc delta : dict) (acc' : value) (delta' : dict) (r : outcome) :
  NoDup (dict_keys delta) ->
  merge_chunk acc delta = (acc', delta', r) ->
  field "role" acc' = dict_get "role" acc.
Proof.
  intros Hnd H. unfold merge_chunk in H.
  destruct (merge_fields (VDict acc) (dict_del "role" delta)) as [t1 r1] eqn:H1.
  destruct (merge_fields_dict _ _ _ _ H1) as (acc1 & -> & _ & Hsame).
  assert (Hrole : dict_get "role" acc1 = dict_get "role" acc).
  { apply Hsame. intros v Hv. exfalso.
    apply (dict_del_not_elem "role" delta Hnd).
    by apply (list_elem_of_fmap_2 fst) in Hv. }
  destruct r1 as [|e]; [|injection H as <- _ _; by rewrite field_dict].
  destruct (dict_get "tool_calls" (dict_del "role" delta)) as [tc|];
    [|injection H as <- _ _; by rewrite field_dict].
  destruct (truthy tc); [|injection H as <- _ _; by rewrite field_dict].
  destruct (py_len tc) as [n|e]; [|injection H as <- _ _; by rewrite field_dict].
  destruct (Z.ltb 0 n); [|injection H as <- _ _; by rewrite field_dict].
  rewrite (route_tool_call_other_keys _ _ _ _ _ _ "role" H); done.
Qed.

Lemma merge_chunk_keeps_role_witness :
  field "role"
    (fst (fst (merge_chunk [("role", VStr "assistant"); ("content", VStr "Hell")]
                 [("role", VStr "user"); ("content", VStr "o")])))
  = Some (VStr "assistant").
Proof.
  refine (merge_chunk_keeps_role
            [("role", VStr "assistant"); ("content", VStr "Hell")]
            [("role", VStr "user"); ("content", VStr "o")] _
            [("content", VStr "o")] Done _ _).
  - apply NoDup_check. reflexivity.
  - reflexivity.
Defined.


Lemma seq_position_None (len : nat) (i : Z) :
  seq_position len i = None <-> i < - Z.of_nat len \/ Z.of_nat len <= i.
Proof.
  unfold seq_position. destruct (Z.ltb i 0) eqn:Hneg.
  - apply Z.ltb_lt in Hneg.
    destruct (Z.leb 0 (i + Z.of_nat len)) eqn:H0; simpl.
    + apply Z.leb_le in H0.
      replace (Z.ltb (i + Z.of_nat len) (Z.of_nat len)) with true
        by (symmetry; apply Z.ltb_lt; lia).
      split; [done|lia].
    + apply Z.leb_gt in H0. split; [lia|done].
  - apply Z.ltb_ge in Hneg.
    replace (Z.leb 0 i) with true by (symmetry; apply Z.leb_le; lia). simpl.
    destruct (Z.ltb i (Z.of_nat len)) eqn:H1.
    + apply Z.ltb_lt in H1. split; [done|lia].
    + apply Z.ltb_ge in H1. split; [lia|done].
Qed.

Lemma seq_position_Some (len : nat) (i : Z) (n : nat) :
  seq_position len i = Some n -> (n < len)%nat.
Proof.
  unfold seq_position.
  destruct (Z.leb 0 _ && Z.ltb _ (Z.of_nat len)) eqn:E; [|done].
  apply andb_true_iff in E as [E1 E2].
  apply Z.leb_le in E1. apply Z.ltb_lt in E2. intros [= <-]. lia.
Qed.

(** X10: with the fields of the delta merged, an integer index and a list in
    the accumulator, the call ends with [IndexError] exactly when the index
    lies outside [-len, len): below the negated length or at or past the
    length. *)
Theorem merge_chunk_index_error_iff
    (acc delta entry : dict) (rest : list value) (i : Z)
    (t1 : value) (l : list value) :
  NoDup (dict_keys delta) ->
  dict_get "tool_calls" delta = Some (VList (VDict entry :: rest)) ->
  dict_get "index" entry = Some (VInt i) ->
  merge_fields (VDict acc) (dict_del "role" delta) = (t1, Done) ->
  dict_get "tool_calls" acc = Some (VList l) ->
  snd (merge_chunk acc delta) = Raised IndexError <->
  i < - Z.of_nat (length l) \/ Z.of_nat (length l) <= i.
Proof.
  intros Hnd Htc Hidx H1 Hacc.
  destruct (first_phase_tool_calls _ _ _ _ _ Hnd Htc eq_refl H1)
    as (acc1 & -> & Hsame).
  rewrite (merge_chunk_tool_call _ _ _ _ _ _ Htc Hidx H1). cbv zeta.
  rewrite (py_getitem_field acc1 "tool_calls" (VList l)) by congruence.
  rewrite <- seq_position_None. unfold py_getitem, as_index.
  destruct (seq_position (length l) i) as [n|] eqn:Hpos; [|done].
  destruct (l !! n) as [slot|] eqn:Hslot.
  - cbn [snd]. split; [|done]. intros Hraise.
    destruct (merge_fields slot (dict_del "index" entry)) as [slot' r] eqn:Hm.
    simpl in Hraise. subst r.
    by destruct (merge_source_raises _ _ _ _ Hm).
  - apply seq_position_Some in Hpos. apply lookup_ge_None in Hslot. lia.
Qed.

Lemma merge_chunk_index_error_iff_witness :
  snd (merge_chunk example_accumulator (example_delta (-3))) = Raised IndexError <->
  -3 < - Z.of_nat 2 \/ Z.of_nat 2 <= -3.
Proof.
  refine (merge_chunk_index_error_iff
            example_accumulator (example_delta (-3)) (example_fragment (-3)) [] (-3)
            (VDict example_accumulator)
            [example_entry "{}" "f" "a"; example_entry "ar" "g" "b"]
            _ _ _ _ _).
  - apply NoDup_check. reflexivity.
  - reflexivity.
  - reflexivity.
  - reflexivity.
  - reflexivity.
Defined.



(** X12: a first tool-call entry without [index]: once the fields of the delta
    are merged the call raises [KeyError]; the delta has lost its role and
    nothing else. *)
Theorem merge_chunk_entry_without_index
    (acc delta entry : dict) (rest : list value) (t1 : value) :
  dict_get "tool_calls" delta = Some (VList (VDict entry :: rest)) ->
  dict_get "index" entry = None ->
  merge_fields (VDict acc) (dict_del "role" delta) = (t1, Done) ->
  merge_chunk acc delta = (t1, dict_del "role" delta, Raised KeyError).
Proof.
  intros Htc Hidx H1. unfold merge_chunk.
  rewrite H1, tool_calls_after_role, Htc. cbn [truthy py_len].
  replace (Z.ltb 0 _) with true by (simpl length; symmetry; apply Z.ltb_lt; lia).
  unfold route_tool_call. rewrite py_getitem_head. cbn [pop_index]. by rewrite Hidx.
Qed.

Lemma merge_chunk_entry_without_index_witness :
  merge_chunk example_accumulator
    [("role", VStr "assistant"); ("tool_calls", VList [VDict [("id", VStr "c")]])]
  = (VDict example_accumulator,
     [("tool_calls", VList [VDict [("id", VStr "c")]])],
     Raised KeyError).
Proof.
  refine (merge_chunk_entry_without_index
            example_accumulator
            [("role", VStr "assistant"); ("tool_calls", VList [VDict [("id", VStr "c")]])]
            [("id", VStr "c")] [] (VDict example_accumulator) _ _ _).
  - reflexivity.
  - reflexivity.
  - reflexivity.
Defined.



(** X14: a delta whose tool-call entry was routed cannot be merged again: the
    first call popped [index] from the entry, so a second call with the
    same delta, on any accumulator, raises. *)
Theorem merge_chunk_second_call_raises
    (acc delta entry : dict) (rest : list value) (index acc' : value) (delta' : dict) :
  NoDup (dict_keys delta) -> NoDup (dict_keys entry) ->
  dict_get "tool_calls" delta = Some (VList (VDict entry :: rest)) ->
  dict_get "index" entry = Some index ->
  merge_chunk acc delta = (acc', delta', Done) ->
  forall acc2, exists e, snd (merge_chunk acc2 delta') = Raised e.
Proof.
  intros Hnd Hnde Htc Hidx H acc2.
  assert (Hdelta' : delta'
            = dict_set "tool_calls" (VList (VDict (dict_del "index" entry) :: rest))
                (dict_del "role" delta)).
  { destruct (merge_fields (VDict acc) (dict_del "role" delta)) as [t1 r1] eqn:H1.
    destruct r1 as [|e]; [|unfold merge_chunk in H; by rewrite H1 in H].
    rewrite (merge_chunk_tool_call _ _ _ _ _ _ Htc Hidx H1) in H. cbv zeta in H.
    destruct (py_getitem t1 (VStr "tool_calls")) as [slots|e]; [|done].
    destruct (py_getitem slots index) as [slot|e]; [|done].
    by injection H as _ <- _. }
  assert (Htc1 : dict_get "tool_calls" (dict_del "role" delta)
                 = Some (VList (VDict entry :: rest)))
    by (by rewrite tool_calls_after_role).
  assert (Hrole : dict_del "role" delta' = delta').
  { apply dict_del_absent. rewrite Hdelta', (dict_keys_set _ _ _ _ Htc1).
    by apply dict_del_not_elem. }
  unfold merge_chunk. rewrite Hrole.
  destruct (merge_fields (VDict acc2) delta') as [t2 [|e]]; [|by exists e].
  rewrite Hdelta', dict_get_set_eq. cbn [truthy py_len].
  replace (Z.ltb 0 _) with true by (simpl length; symmetry; apply Z.ltb_lt; lia).
  unfold route_tool_call. rewrite py_getitem_head. cbn [pop_index].
  assert (Hgone : dict_get "index" (dict_del "index" entry) = None).
  { apply dict_get_None. by apply dict_del_not_elem. }
  rewrite Hgone. by exists KeyError.
Qed.

Lemma merge_chunk_second_call_raises_witness :
  exists e,
    snd (merge_chunk example_accumulator
           [("tool_calls", VList [VDict [("function", VDict [("arguments", VStr "go")])]])])
    = Raised e.
Proof.
  refine (merge_chunk_second_call_raises
            example_accumulator (example_delta 1) (example_fragment 1) [] (VInt 1)
            (fst (fst (merge_chunk example_accumulator (example_delta 1))))
            [("tool_calls", VList [VDict [("function", VDict [("arguments", VStr "go")])]])]
            _ _ _ _ _ example_accumulator).
  - apply NoDup_check. reflexivity.
  - apply NoDup_check. reflexivity.
  - reflexivity.
  - reflexivity.
  - reflexivity.
Defined.

(** * Deltas the accumulator is ready for *)

Lemma fits_dict (fields d : dict) :
  fits (VDict fields) (VDict d)
  = bool_decide (NoDup (map fst fields)) && forallb (field_fits d) fields.
Proof. reflexivity. Qed.

Lemma field_fits_same (d d1 : dict) (kv : string * value) :
  dict_get (fst kv) d1 = dict_get (fst kv) d -> field_fits d1 kv = field_fits d kv.
Proof. destruct kv as [k v]. simpl. intros ->. done. Qed.

(** Replacing a value by one that is ready for the same deltas, and is a
    string if the old one was, keeps the dict ready for the same deltas. *)
Lemma fits_dict_set (d : dict) (k : string) (cur new : value) :
  dict_get k d = Some cur ->
  (forall s2, fits s2 cur = true -> fits s2 new = true) ->
  (forall o, cur = VStr o -> exists o', new = VStr o') ->
  forall s2, fits s2 (VDict d) = true -> fits s2 (VDict (dict_set k new d)) = true.
Proof.
  intros Hget Hfits Hstr s2. destruct s2 as [| | | | | |fields2]; try done.
  rewrite !fits_dict, !andb_true_iff, !forallb_forall. intros [Hnd Hall].
  split; [done|]. intros [k2 v2] Hin. specialize (Hall _ Hin).
  destruct (decide (k = k2)) as [<-|Hne].
  - simpl in *. rewrite dict_get_set_eq, Hget in *.
    destruct v2; try done.
    + destruct cur; try done. by destruct (Hstr _ eq_refl) as [o' ->].
    + by apply Hfits.
  - rewrite <- Hall. apply field_fits_same. simpl. by apply dict_get_set_ne.
Qed.

Lemma merge_source_fits (source : value) : forall (target : value),
  fits source target = true ->
  exists t', merge_source source target = (t', Done) /\
             forall s2, fits s2 target = true -> fits s2 t' = true.
Proof.
  induction source as [| | | | | |fields IH] using value_ind;
    try (intros target _; by exists target).
  intros target Hfits. destruct target as [| | | | | |d]; try done.
  rewrite fits_dict in Hfits. apply andb_true_iff in Hfits as [Hnd Hall].
  apply bool_decide_eq_true_1 in Hnd.
  change (exists t', merge_fields (VDict d) fields = (t', Done) /\
                     forall s2, fits s2 (VDict d) = true -> fits s2 t' = true).
  revert d Hall. induction fields as [|[key val] rest IHrest]; intros d Hall.
  - exists (VDict d). by rewrite merge_fields_nil.
  - apply Forall_cons in IH as [Hval Hrest]. simpl in Hval.
    simpl in Hnd. apply NoDup_cons in Hnd as [Hkey Hnd].
    simpl in Hall. apply andb_true_iff in Hall as [Hfield Hall].
    (* the field leaves a dict that is ready for the rest *)
    assert (Hstep : exists d1,
              merge_field (merge_source val) (VDict d) key val = (VDict d1, Done) /\
              (forall k, k <> key -> dict_get k d1 = dict_get k d) /\
              forall s2, fits s2 (VDict d) = true -> fits s2 (VDict d1) = true).
    { destruct val as [| | | |s| |sub]; try (by exists d).
      - simpl. destruct (dict_get key d) as [cur|] eqn:Hget; [|done].
        destruct cur as [| | | |old| |]; try done. simpl.
        exists (dict_set key (VStr (old +:+ s)) d). split_and!; [done| |].
        + intros k Hk. by apply dict_get_set_ne.
        + apply (fits_dict_set d key (VStr old)); [done| |by eexists].
          by intros [| | | | | |?].
      - unfold merge_field. cbn [field_fits] in Hfield.
        destruct (dict_get key d) as [cur|] eqn:Hget; [|done].
        destruct (Hval cur Hfield) as (cur' & Hmerge & Hinv). rewrite Hmerge.
        exists (dict_set key cur' d). split_and!; [done| |].
        + intros k Hk. by apply dict_get_set_ne.
        + apply (fits_dict_set d key cur); [done|done|].
          intros o ->. simpl in Hfield. done. }
    destruct Hstep as (d1 & Hstep & Hother & Hinv1).
    assert (Hall1 : forallb (field_fits d1) rest = true).
    { apply forallb_forall. intros kv Hkv.
      rewrite forallb_forall in Hall. rewrite <- (Hall kv Hkv).
      apply field_fits_same, Hother. intros Heq. apply Hkey.
      rewrite <- Heq. apply list_elem_of_In in Hkv.
      by apply (list_elem_of_fmap_2 fst) in Hkv. }
    destruct (IHrest Hrest Hnd d1 Hall1) as (t' & Hmerge & Hinv).
    exists t'. rewrite merge_fields_cons, Hstep. split; [done|].
    intros s2 Hs2. by apply Hinv, Hinv1.
Qed.

(** X6: a delta the accumulator is ready for is merged without raising, and
    the accumulator is afterwards ready for every delta it was ready for
    before: a stream of such deltas never fails. *)
Theorem merge_fields_fits (target : value) (source : dict) :
  fits (VDict source) target = true ->
  exists target',
    merge_fields target source = (target', Done) /\
    forall delta : dict, fits (VDict delta) target = true ->
                         fits (VDict delta) target' = true.
Proof.
  intros Hfits. destruct (merge_source_fits (VDict source) target Hfits) as (t' & H & Hinv).
  exists t'. split; [done|]. intros delta. apply Hinv.
Qed.

Lemma merge_fields_fits_witness :
  exists target',
    merge_fields (example_entry "ar" "g" "b")
      [("function", VDict [("arguments", VStr "go")]); ("type", VNone)]
    = (target', Done) /\
    forall delta : dict, fits (VDict delta) (example_entry "ar" "g" "b") = true ->
                         fits (VDict delta) target' = true.
Proof.
  refine (merge_fields_fits (example_entry "ar" "g" "b")
            [("function", VDict [("arguments", VStr "go")]); ("type", VNone)] _).
  reflexivity.
Defined.

Lemma merge_chunk_appends_string_witness :
  field "content"
    (fst (fst (merge_chunk [("content", VStr "Hell")]
                 [("role", VStr "assistant"); ("content", VStr "o")])))
  = Some (VStr "Hello").
Proof.
  refine (merge_chunk_appends_string
            [("content", VStr "Hell")]
            [("role", VStr "assistant"); ("content", VStr "o")]
            "content" "o" "Hell" _ [("content", VStr "o")] _ _ _ _ _).
  - apply NoDup_check. reflexivity.
  - apply elem_of_cons. right. apply elem_of_cons. left. reflexivity.
  - discriminate.
  - reflexivity.
  - reflexivity.
Defined.

(** * Further properties of parse_type *)

Lemma union_loop_Ok (parsed_args : list (result value)) :
  forall (types : list value) (items : value) (types' : list value) (items' : value),
  union_loop parsed_args types items = Ok (types', items') ->
  exists parsed, parsed_args = map Ok parsed /\
                 types' = (types ++ map type_of_parsed parsed)%list.
Proof.
  induction parsed_args as [|[p|e] rest IH]; intros types items types' items'; simpl.
  - intros [= <- _]. exists []. by rewrite app_nil_r.
  - intros H. destruct (IH _ _ _ _ H) as (parsed & -> & ->).
    exists (p :: parsed). by rewrite <- app_assoc.
  - done.
Qed.

Lemma union_loop_Raise (parsed_args : list (result value)) :
  forall (types : list value) (items : value) (e : exn),
  union_loop parsed_args types items = Raise e -> Raise e ∈ parsed_args.
Proof.
  induction parsed_args as [|[p|e'] rest IH]; intros types items e; simpl; [done| |].
  - intros H. apply elem_of_cons. right. by eapply IH.
  - intros [= ->]. apply elem_of_cons. by left.
Qed.

Lemma json_kind_check (s : string) :
  bool_decide (s ∈ json_kinds) = true -> s ∈ json_kinds.
Proof. apply bool_decide_eq_true_1. Qed.

Section parse_type_branches.

Variable set_order : list value -> list value.

(** X15: a list annotation keeps of its element only the type: the fragment is
    an array whose [items] has the single key [type], the [type] entry of
    the fragment of the first argument (["string"] for a bare [List]);
    [items], [nullable] and [additionalProperties] of the element are
    dropped. *)
Theorem parse_type_list_items (args : list annotation) (p : value) :
  parse_type set_order (ListOf args) = Ok p ->
  exists t,
    p = VDict [("type", VStr "array"); ("items", VDict [("type", t)])] /\
    match args with
    | [] => t = VStr "string"
    | arg :: _ =>
        exists d, parse_type set_order arg = Ok (VDict d) /\ dict_get "type" d = Some t
    end.
Proof.
  destruct args as [|arg args]; simpl.
  - intros [= <-]. by exists (VStr "string").
  - destruct (parse_type set_order arg) as [q|e] eqn:Hq; [|done].
    intros [= <-].
    destruct (parse_type_fragment set_order arg q Hq) as (d & -> & [t Ht] & _).
    exists t. split.
    + simpl. by rewrite Ht.
    + by exists d.
Qed.

(** X16: a dict annotation with two arguments never looks at the key type and
    carries the whole fragment of the value type as
    [additionalProperties]. *)
Theorem parse_type_dict_value (key_type value_type : annotation) (p : value) :
  parse_type set_order value_type = Ok p ->
  parse_type set_order (DictOf [key_type; value_type])
  = Ok (VDict [("type", VStr "object"); ("additionalProperties", p)]).
Proof.
  intros Hp. simpl. rewrite Hp.
  by destruct (parse_type_fragment set_order value_type p Hp) as (d & -> & _).
Qed.

(** [parse_type] raises nothing but [TypeError]. *)
Lemma parse_type_raises (a : annotation) : forall (e : exn),
  parse_type set_order a = Raise e -> e = TypeError.
Proof.
  induction a as [a Hu Hl Hd|args IH|args IH|args IH] using annotation_ind; intros e.
  - destruct a as [| | | | | | |name h|args|args|args]; simpl;
      try (by (exfalso; first [by eapply Hu | by eapply Hl | by eapply Hd]));
      try done.
    destruct h; [done|]. by intros [= <-].
  - rewrite parse_type_Union. unfold union_schema.
    set (paired := map (fun arg => (arg, parse_type set_order arg)) args).
    rewrite Forall_forall in IH.
    assert (Hmember : forall r, r ∈ map snd paired -> r = Raise e -> e = TypeError).
    { intros r Hr ->. unfold paired in Hr. rewrite snd_paired in Hr.
      apply list_elem_of_fmap in Hr as (arg & Harg & Hin).
      by apply (IH arg Hin). }
    assert (Hgen : union_general set_order (map snd paired) = Raise e -> e = TypeError).
    { unfold union_general.
      destruct (union_loop (map snd paired) [] VNone) as [[types items]|e'] eqn:Hloop.
      - destruct (forallb hashable types); [done|]. by intros [= <-].
      - intros [= ->]. apply union_loop_Raise in Hloop. by apply (Hmember _ Hloop). }
    destruct (existsb _ paired); [|done].
    destruct (List.filter _ paired) as [|[T r] [|? ?]] eqn:Hf; try done.
    assert (HT : (T, r) ∈ paired).
    { apply (filter_elem (fun a => negb (is_NoneType (fst a)))). rewrite Hf.
      apply elem_of_cons. by left. }
    apply (list_elem_of_fmap_2 snd) in HT. simpl in HT.
    destruct r as [q|e']; [|intros [= ->]; by apply (Hmember _ HT)].
    destruct q as [| | | | | |d]; try done.
    destruct (dict_get "type" d); done.
  - destruct args as [|arg args]; simpl; [done|].
    apply Forall_cons in IH as [IHarg _].
    destruct (parse_type set_order arg) as [q|e'] eqn:Hq; [done|].
    intros [= <-]. by apply IHarg.
  - destruct args as [|k [|value_type [|? ?]]]; simpl; try done.
    apply Forall_cons in IH as [_ IH]. apply Forall_cons in IH as [IHvalue _].
    destruct (parse_type set_order value_type) as [q|e'] eqn:Hq; [done|].
    intros [= <-]. by apply IHvalue.
Qed.

Lemma build_parameters_raises (params : list parameter) :
  forall (parameters : dict) (e : exn),
  build_parameters set_order params parameters = Raise e ->
  exists param ann, param ∈ params /\ param_annotation param = Some ann /\
                    parse_type set_order ann = Raise e.
Proof.
  induction params as [|param params IH]; intros parameters e; simpl; [done|].
  destruct (param_annotation param) as [ann|] eqn:Hann.
  - destruct (parse_type set_order ann) as [fragment|e'] eqn:Hparse.
    + intros H. destruct (IH _ _ H) as (q & ann' & Hq & Hann' & Hraise).
      exists q, ann'. split_and!; [|done|done]. apply elem_of_cons. by right.
    + intros [= <-]. exists param, ann. split_and!; [|done|done].
      apply elem_of_cons. by left.
  - intros H. destruct (IH _ _ H) as (q & ann' & Hq & Hann' & Hraise).
    exists q, ann'. split_and!; [|done|done]. apply elem_of_cons. by right.
Qed.

(** X18: the ways [function_to_json] fails: [ValueError] exactly for a named
    callable whose signature cannot be reflected, [AttributeError] only for
    a callable without a name, and otherwise [TypeError], from an
    annotation of a parameter on which [parse_type] raises. *)
Theorem function_to_json_errors (func : callable) :
  (function_to_json set_order func = Raise ValueError <->
   fn_signature func = None /\ is_Some (fn_name func)) /\
  forall e, function_to_json set_order func = Raise e ->
    (e = ValueError /\ fn_signature func = None /\ is_Some (fn_name func)) \/
    (e = AttributeError /\ fn_name func = None) \/
    (e = TypeError /\
     exists params param ann,
       fn_signature func = Some params /\ param ∈ params /\
       param_annotation param = Some ann /\
       parse_type set_order ann = Raise TypeError).
Proof.
  assert (Hcases : forall e, function_to_json set_order func = Raise e ->
    (e = ValueError /\ fn_signature func = None /\ is_Some (fn_name func)) \/
    (e = AttributeError /\ fn_name func = None) \/
    (e = TypeError /\
     exists params param ann,
       fn_signature func = Some params /\ param ∈ params /\
       param_annotation param = Some ann /\
       parse_type set_order ann = Raise TypeError)).
  { intros e. unfold function_to_json.
    destruct (fn_signature func) as [params|].
    - destruct (build_parameters set_order params []) as [properties|e'] eqn:Hbuild.
      + destruct (fn_name func); [done|]. intros [= <-]. right. by left.
      + intros [= ->]. right. right.
        destruct (build_parameters_raises _ _ _ Hbuild)
          as (param & ann & Hin & Hann & Hraise).
        pose proof (parse_type_raises _ _ Hraise) as ->.
        split; [done|]. by exists params, param, ann.
    - destruct (fn_name func) as [name|] eqn:Hname; intros [= <-].
      + left. split_and!; [done|done|by eexists].
      + right. by left. }
  split; [|exact Hcases]. split.
  - intros H. destruct (Hcases _ H) as [(_ & Hsig & Hname)|[[? _]|[? _]]]; done.
  - intros [Hsig [name Hname]]. unfold function_to_json. by rewrite Hsig, Hname.
Qed.

Lemma build_parameters_values (params : list parameter) :
  forall (parameters properties : dict),
  build_parameters set_order params parameters = Ok properties ->
  NoDup (dict_keys parameters ++ map param_name params) ->
  (forall k v, dict_get k parameters = Some v -> dict_get k properties = Some v) /\
  forall param, param ∈ params ->
    exists fragment,
      dict_get (param_name param) properties = Some fragment /\
      match param_annotation param with
      | None => fragment = VDict [("type", VStr "string")]
      | Some ann => parse_type set_order ann = Ok fragment
      end.
Proof.
  induction params as [|param params IH]; intros parameters properties; simpl.
  - intros [= <-] _. split; [done|]. intros param H. by apply elem_of_nil in H.
  - destruct (match param_annotation param with
              | Some ann => parse_type set_order ann
              | None => Ok (VDict [("type", VStr "string")])
              end) as [param_type|e] eqn:Htype; [|done].
    intros H Hnd.
    assert (Hfresh : param_name param ∉ dict_keys parameters).
    { apply NoDup_app in Hnd as (_ & Hdisj & _).
      intros Hin. apply (Hdisj _ Hin), elem_of_cons. by left. }
    assert (Hnd1 : NoDup (dict_keys (dict_set (param_name param) param_type parameters)
                          ++ map param_name params)).
    { rewrite dict_keys_set_new by (by apply dict_get_None).
      by rewrite <- app_assoc. }
    destruct (IH _ _ H Hnd1) as [Hkept Hrest]. split.
    + intros k v Hk. apply Hkept. rewrite dict_get_set_ne; [done|].
      intros <-. apply Hfresh. apply dict_get_elem in Hk.
      by apply (list_elem_of_fmap_2 fst) in Hk.
    + intros q Hq. apply elem_of_cons in Hq as [->|Hq]; [|by apply Hrest].
      exists param_type. split; [apply Hkept, dict_get_set_eq|].
      destruct (param_annotation param); [done|]. by injection Htype as <-.
Qed.

(** X19: in the descriptor, [properties] holds under the name of each parameter
    the fragment of its annotation, and [{"type": "string"}] for a
    parameter without annotation. *)
Theorem function_to_json_properties
    (func : callable) (params : list parameter) (descriptor : value)
    (param : parameter) :
  fn_signature func = Some params ->
  NoDup (map param_name params) ->
  function_to_json set_order func = Ok descriptor ->
  param ∈ params ->
  exists fragment,
    lookup_path [Key "function"; Key "parameters"; Key "properties";
                 Key (param_name param)] descriptor
    = Some fragment /\
    match param_annotation param with
    | None => fragment = VDict [("type", VStr "string")]
    | Some ann => parse_type set_order ann = Ok fragment
    end.
Proof.
  intros Hsig Hnd. unfold function_to_json. rewrite Hsig.
  destruct (build_parameters set_order params []) as [properties|e] eqn:Hbuild; [|done].
  destruct (fn_name func) as [name|]; [|done].
  intros [= <-] Hparam.
  destruct (build_parameters_values _ _ _ Hbuild Hnd) as [_ Hvalues].
  destruct (Hvalues param Hparam) as (fragment & Hget & Hfragment).
  exists fragment. split; [|done]. simpl. by rewrite Hget.
Qed.

End parse_type_branches.

Lemma parse_type_list_items_witness :
  exists t,
    VDict [("type", VStr "array"); ("items", VDict [("type", VStr "object")])]
    = VDict [("type", VStr "array"); ("items", VDict [("type", t)])] /\
    exists d, parse_type insertion_order (DictOf [Tstr; Tint]) = Ok (VDict d) /\
              dict_get "type" d = Some t.
Proof.
  refine (parse_type_list_items insertion_order [DictOf [Tstr; Tint]] _ _).
  reflexivity.
Defined.

Lemma parse_type_dict_value_witness :
  parse_type insertion_order (DictOf [Other "Annotated[str, []]" false; ListOf [Tint]])
  = Ok (VDict [("type", VStr "object");
               ("additionalProperties",
                 VDict [("type", VStr "array");
                        ("items", VDict [("type", VStr "integer")])])]).
Proof.
  refine (parse_type_dict_value insertion_order
            (Other "Annotated[str, []]" false) (ListOf [Tint]) _ _).
  reflexivity.
Defined.

Lemma function_to_json_errors_witness :
  fn_signature {| fn_name := Some "min"; fn_doc := None; fn_signature := None |} = None /\
  is_Some (fn_name {| fn_name := Some "min"; fn_doc := None; fn_signature := None |}).
Proof.
  refine (proj1 (proj1 (function_to_json_errors insertion_order
                          {| fn_name := Some "min"; fn_doc := None;
                             fn_signature := None |})) _).
  reflexivity.
Defined.

Lemma function_to_json_properties_witness :
  exists fragment,
    lookup_path [Key "function"; Key "parameters"; Key "properties"; Key "tags"]
      example_descriptor
    = Some fragment /\
    parse_type insertion_order (ListOf [Tstr]) = Ok fragment.
Proof.
  refine (function_to_json_properties insertion_order example_callable example_params
            example_descriptor
            {| param_name := "tags";
               param_annotation := Some (ListOf [Tstr]);
               param_default := None |} _ _ _ _).
  - reflexivity.
  - apply NoDup_check. reflexivity.
  - reflexivity.
  - unfold example_params. rewrite !elem_of_cons. auto.
Defined.

Lemma function_to_json_total_witness :
  exists descriptor, function_to_json insertion_order example_callable = Ok descriptor.
Proof.
  refine (function_to_json_total insertion_order example_callable example_params _ _ _).
  - eexists. reflexivity.
  - reflexivity.
  - intros param ann Hparam Hann. unfold example_params in Hparam.
    rewrite !elem_of_cons in Hparam.
    destruct Hparam as [->|[->|[->|Hnil]]]; simpl in Hann;
      [by injection Hann as <- ..|by apply elem_of_nil in Hnil].
Defined.

Section parse_type_kinds.

Variable set_order : list value -> list value.

Hypothesis set_order_strings : forall names : list string,
  NoDup (set_order (map VStr names)) /\
  forall v, v ∈ set_order (map VStr names) <-> v ∈ map VStr names.

(** The names collected from members with valid types, when all of them
    can be hashed, are strings among the type names. *)
Lemma hashable_valid_types (types : list value) :
  Forall valid_type types -> forallb hashable types = true ->
  exists names, types = map VStr names /\ Forall (fun s => s ∈ json_kinds) names.
Proof.
  induction types as [|t types IH]; [by exists []|].
  intros Hvalid Hhash. apply Forall_cons in Hvalid as [Ht Hvalid].
  simpl in Hhash. apply andb_true_iff in Hhash as [Hh Hhash].
  destruct (IH Hvalid Hhash) as (names & -> & Hnames).
  destruct Ht as [(s & -> & Hs)|(l & -> & _)]; [|done].
  exists (s :: names). split; [done|]. by apply Forall_cons.
Qed.

Lemma type_entry_nullable (d : dict) (v : value) :
  dict_get "type" (dict_set "nullable" v d) = dict_get "type" d.
Proof. by apply dict_get_set_ne. Qed.

(** X17: every fragment [parse_type] returns has a valid [type]: one of the
    seven type names, or, for a union, a list of them. *)
Theorem parse_type_valid_type (a : annotation) : forall (p : value),
  parse_type set_order a = Ok p ->
  exists d t, p = VDict d /\ dict_get "type" d = Some t /\ valid_type t.
Proof.
  assert (Hkind : forall s, bool_decide (s ∈ json_kinds) = true ->
            exists d t, VDict [("type", VStr s)] = VDict d /\
                        dict_get "type" d = Some t /\ valid_type t).
  { intros s Hs. exists [("type", VStr s)], (VStr s). split_and!; [done|done|].
    left. exists s. split; [done|]. by apply json_kind_check. }
  induction a as [a Hu Hl Hd|args IH|args IH|args IH] using annotation_ind; intros p.
  - destruct a as [| | | | | | |name h|args|args|args]; simpl;
      try (by (exfalso; first [by eapply Hu | by eapply Hl | by eapply Hd]));
      try (intros [= <-]; by apply Hkind).
    destruct h; [|done]. intros [= <-]. by apply Hkind.
  - rewrite parse_type_Union. unfold union_schema.
    set (paired := map (fun arg => (arg, parse_type set_order arg)) args).
    rewrite Forall_forall in IH.
    assert (Hgen : union_general set_order (map snd paired) = Ok p ->
              exists d t, p = VDict d /\ dict_get "type" d = Some t /\ valid_type t).
    { unfold union_general.
      destruct (union_loop (map snd paired) [] VNone) as [[types items]|e] eqn:Hloop;
        [|done].
      destruct (forallb hashable types) eqn:Hhash; [|done]. intros [= <-].
      destruct (union_loop_Ok _ _ _ _ _ Hloop) as (parsed & Hparsed & ->).
      simpl in Hhash |- *. unfold paired in Hparsed. rewrite snd_paired in Hparsed.
      assert (Hvalid : Forall valid_type (map type_of_parsed parsed)).
      { apply Forall_forall. intros t Ht.
        apply list_elem_of_fmap in Ht as (q & -> & Hq).
        destruct (parsed_elem_of _ _ _ _ Hparsed Hq) as (arg & Harg & Hparse).
        destruct (IH arg Harg q Hparse) as (d & t & -> & Ht & Hv).
        simpl. by rewrite Ht. }
      destruct (hashable_valid_types _ Hvalid Hhash) as (names & Hnames & Hkinds).
      rewrite Hnames. destruct (set_order_strings names) as [_ Hin].
      assert (Hlist : valid_type (VList (set_order (map VStr names)))).
      { right. eexists. split; [done|]. apply Forall_forall. intros v Hv.
        apply Hin, list_elem_of_fmap in Hv as (s & -> & Hs).
        exists s. split; [done|]. rewrite Forall_forall in Hkinds. by apply Hkinds. }
      destruct (truthy items); eexists; eexists; split_and!; done. }
    destruct (existsb _ paired); [|done].
    destruct (List.filter _ paired) as [|[T parsed] [|? ?]] eqn:Hf; try done.
    destruct parsed as [parsed|e]; [|done].
    destruct parsed as [| | | | | |d]; try done.
    destruct (dict_get "type" d) as [t|] eqn:Ht; [|done].
    intros [= <-].
    assert (HT : (T, Ok (VDict d)) ∈ paired).
    { apply (filter_elem (fun a => negb (is_NoneType (fst a)))). rewrite Hf.
      apply elem_of_cons. by left. }
    apply list_elem_of_fmap in HT as (T' & [= <- HT'] & Hin).
    destruct (IH _ Hin _ (eq_sym HT')) as (d' & t' & [= <-] & Ht' & Hvalid).
    exists (dict_set "nullable" (VBool true) d), t'.
    split_and!; [done| |done]. by rewrite type_entry_nullable.
  - destruct args as [|arg args]; simpl.
    + intros [= <-]. eexists. exists (VStr "array"). split_and!; [done|done|].
      left. eexists. split; [done|]. by apply json_kind_check.
    + destruct (parse_type set_order arg) as [q|e]; [|done].
      intros [= <-]. eexists. exists (VStr "array"). split_and!; [done|done|].
      left. eexists. split; [done|]. by apply json_kind_check.
  - assert (Hobj : forall extra, exists d t,
              VDict [("type", VStr "object"); ("additionalProperties", extra)] = VDict d /\
              dict_get "type" d = Some t /\ valid_type t).
    { intros extra. eexists. exists (VStr "object"). split_and!; [done|done|].
      left. eexists. split; [done|]. by apply json_kind_check. }
    destruct args as [|k [|value_type [|? ?]]]; simpl; try (intros [= <-]; apply Hobj).
    destruct (parse_type set_order value_type) as [q|e]; [|done].
    intros [= <-]. apply Hobj.
Qed.

End parse_type_kinds.

Lemma parse_type_valid_type_witness :
  exists d t,
    VDict [("type", VList [VStr "integer"; VStr "array"; VStr "null"]);
           ("items", VDict [("type", VStr "string")])]
    = VDict d /\
    dict_get "type" d = Some t /\ valid_type t.
Proof.
  refine (parse_type_valid_type insertion_order insertion_order_strings
            (Union [Tint; ListOf [Tstr]; TNoneType]) _ _).
  reflexivity.
Defined.

(** * Optional written with a bar *)

Section optional_bar.

Variable set_order : list value -> list value.

(** C8 at the failing input: for [def f(x: int | None)] the annotation is a
    union with [None] whose only other member is [int], yet [parse_type]
    does not recognise it: it returns [{"type": "string"}], without
    [nullable], where the same type spelled [Optional[int]] gets the
    fragment of [int] with [nullable] set. *)
Theorem parse_type_bar_optional_not_recognised :
  (forall text, parse_type set_order (bar_union text) = Ok (VDict [("type", VStr "string")])) /\
  parse_type set_order (bar_union "int | None") = Ok (VDict [("type", VStr "string")]) /\
  parse_type set_order (Union [Tint; TNoneType])
  = Ok (VDict [("type", VStr "integer"); ("nullable", VBool true)]) /\
  field "nullable" (VDict [("type", VStr "string")]) = None.
Proof. split_and!; reflexivity. Qed.

End optional_bar.
